(** * SecurePasswordGenerator

    A shallow embedding of the React component of [Passowrd-Generator.jsx]
    and the properties of its generation algorithm, strength estimate and
    password history.

    Conventions of the embedding:
    - a JavaScript string is the list of its UTF-16 code units ([jsstring]);
      every character of the source's character classes lies in the Basic
      Multilingual Plane, so one character is one code unit;
    - a random byte is a natural number ([N]); the Web Crypto source is an
      oracle giving the k-th byte it will ever hand out;
    - a JavaScript number that may be fractional is an IEEE 754 binary64
      ([float], the kernel's primitive floats); lengths and counters, which
      the source only ever uses as small non-negative integers, are [nat];
    - the component's [useState] cells form the record [State]; every
      handler is a function on that record. *)

From Stdlib Require Import String Ascii DecimalString ZArith Nnat QArith.
From Stdlib Require Import Uint63 Floats Bool Lia List.
Import ListNotations.
Close Scope Q_scope.

(** ** JavaScript strings *)

Module JS.

Definition char := Z.
Definition jsstring := list char.

(** Code units of an ASCII literal of the source. *)
Definition units (s : string) : jsstring :=
  map (fun a => Z.of_N (N_of_ascii a)) (list_ascii_of_string s).

(** [s.split('')]: the array of the one-unit strings of [s]. *)
Definition split_empty (s : jsstring) : list jsstring :=
  map (fun c => [c]) s.

(** [arr.join('')]. *)
Definition join_empty (arr : list jsstring) : jsstring :=
  concat arr.

(** Is [search] a prefix of [s]? *)
Fixpoint starts_with (search s : jsstring) : bool :=
  match search, s with
  | [], _ => true
  | _ :: _, [] => false
  | a :: search', b :: s' => (a =? b)%Z && starts_with search' s'
  end.

(** [s.includes(search)]: [search] occurs in [s] as a substring. *)
Fixpoint includes (s search : jsstring) : bool :=
  starts_with search s ||
  match s with
  | [] => false
  | _ :: s' => includes s' search
  end.

(** The text [String(undefined)], what [+=] appends for an index that is
    out of range. *)
Definition undefined_text : jsstring := units "undefined".

(** [s[i]]: the one-unit string at index [i], [undefined] out of range. *)
Definition index (s : jsstring) (i : N) : option char :=
  nth_error s (N.to_nat i).

(** [acc += s[i]]. *)
Definition append_index (acc s : jsstring) (i : N) : jsstring :=
  acc ++ match index s i with
         | Some c => [c]
         | None => undefined_text
         end.

End JS.
Import JS.

(** ** Character classes and options (lines 31-48) *)

Record Options := mkOptions {
  lowercase : bool;
  uppercase : bool;
  numbers : bool;
  symbols : bool;
  ambiguous : bool;
  extendedAscii : bool
}.

(** The initial value of the [options] cell. *)
Definition default_options : Options :=
  {| lowercase := true; uppercase := true; numbers := true; symbols := true;
     ambiguous := false; extendedAscii := false |}.

Module charSets.

Definition lowercase : jsstring := units "abcdefghijklmnopqrstuvwxyz".
Definition uppercase : jsstring := units "ABCDEFGHIJKLMNOPQRSTUVWXYZ".
Definition numbers : jsstring := units "0123456789".

(** The literal ends with an escaped double quote, quote and backslash. *)
Definition symbols : jsstring :=
  units "!@#$%^&*()-_=+[]{}|;:,.<>?/~`" ++ [34; 39; 92]%Z.

Definition ambiguous : jsstring := units "Il1O0".

(** Euro, pound, yen, cent, section, copyright, registered, trade mark,
    inverted question and exclamation marks, then the Latin-1 letters
    U+00C0..U+00FF without the multiplication (U+00D7) and division
    (U+00F7) signs. *)
Definition extendedAscii : jsstring :=
  [8364; 163; 165; 162; 167; 169; 174; 8482; 191; 161;
   192; 193; 194; 195; 196; 197; 198; 199; 200; 201; 202; 203; 204; 205;
   206; 207; 208; 209; 210; 211; 212; 213; 214;
   216; 217; 218; 219; 220; 221; 222; 223; 224; 225; 226; 227; 228; 229;
   230; 231; 232; 233; 234; 235; 236; 237; 238; 239; 240; 241; 242; 243;
   244; 245; 246;
   248; 249; 250; 251; 252; 253; 254; 255]%Z.

End charSets.

(** ** Building the character set (lines 92-105) *)

(** [if (flag) charset += cls]. *)
Definition add_if (flag : bool) (cls charset : jsstring) : jsstring :=
  if flag then charset ++ cls else charset.

(** The concatenation of the selected classes, in the order of the source. *)
Definition selected_chars (options : Options) : jsstring :=
  let charset := [] in
  let charset := add_if (lowercase options) charSets.lowercase charset in
  let charset := add_if (uppercase options) charSets.uppercase charset in
  let charset := add_if (numbers options) charSets.numbers charset in
  let charset := add_if (symbols options) charSets.symbols charset in
  let charset := add_if (extendedAscii options) charSets.extendedAscii charset in
  charset.

(** The filter of lines 102-104. *)
Definition remove_ambiguous (charset : jsstring) : jsstring :=
  join_empty
    (filter (fun char => negb (includes charSets.ambiguous char))
            (split_empty charset)).

(** The value of [charset] when line 107 is reached. *)
Definition build_charset (options : Options) : jsstring :=
  let charset := selected_chars options in
  if negb (ambiguous options) then remove_ambiguous charset else charset.

(** ** JavaScript numbers *)

Module Num.

Local Open Scope Z_scope.

(** The binary64 value of an integer below 2^63 in absolute value (exact
    below 2^53, which covers every length and index of the component). *)
Definition of_Z (z : Z) : float :=
  if z <? 0 then (- of_uint63 (Uint63.of_Z (- z)))%float
  else of_uint63 (Uint63.of_Z z).

Definition of_nat (n : nat) : float := of_Z (Z.of_nat n).

(** The integer a finite binary64 denotes, when it denotes one. *)
Definition to_Z (x : float) : option Z :=
  match Prim2SF x with
  | S754_zero _ => Some 0
  | S754_finite s m e =>
      let sign v := if s then - v else v in
      if 0 <=? e then Some (sign (Z.pos m * 2 ^ e))
      else if (Z.pos m) mod 2 ^ (- e) =? 0
           then Some (sign (Z.pos m / 2 ^ (- e)))
           else None
  | _ => None
  end.

(** [Math.round]: NaN, the infinities, the zeros and integral values are
    returned unchanged; any other [x] goes to [floor (x + 1/2)], computed
    exactly, with the sign of [x] kept on a zero result. *)
Definition Math_round (x : float) : float :=
  match Prim2SF x with
  | S754_finite s m e =>
      if 0 <=? e then x
      else
        let d := 2 ^ (- e) in
        let n := if s then Z.neg m else Z.pos m in
        let r := (2 * n + d) / (2 * d) in
        if r =? 0 then (if s then neg_zero else zero) else of_Z r
  | _ => x
  end.

(** Decimal digits of a natural number. *)
Definition digits (n : N) : jsstring :=
  units (DecimalString.NilZero.string_of_uint (N.to_uint n)).

(** [String(x)] as a template literal computes it, for NaN, the infinities
    and the integral values below 10^21; fractional values and the
    exponent notation of larger ones are outside the embedding ([None]):
    the component only ever prints results of [Math.round]. *)
Definition Number_toString (x : float) : option jsstring :=
  match Prim2SF x with
  | S754_nan => Some (units "NaN")
  | S754_infinity false => Some (units "Infinity")
  | S754_infinity true => Some (units "-Infinity")
  | _ =>
      match to_Z x with
      | Some z =>
          if Z.abs z <? 10 ^ 21
          then Some ((if z <? 0 then units "-" else []) ++ digits (Z.abs_N z))
          else None
      | None => None
      end
  end.

End Num.

(** What the source takes from its host: [Math.log] and the [**] operator
    are "implementation-approximated" in ECMAScript, so the embedding leaves
    them to the platform. *)
Class Platform := {
  Math_log : float -> float;
  Number_exponentiate : float -> float -> float
}.

(** A platform for evaluating examples: the logarithm is the correctly
    rounded one at the set sizes used below (NaN elsewhere), and [**] is
    exact on base 2 with an integral exponent (NaN elsewhere). *)
Definition table_log (x : float) : float :=
  if (x =? 1)%float then 0%float
  else if (x =? 2)%float then 0x1.62e42fefa39efp-1%float
  else if (x =? 10)%float then 0x1.26bb1bbb55516p+1%float
  else if (x =? 32)%float then 0x1.bb9d3beb8c86bp+1%float
  else if (x =? 64)%float then 0x1.0a2b23f3bab73p+2%float
  else if (x =? 89)%float then 0x1.1f45d17ae8af6p+2%float
  else nan.

Definition exact_pow2 (base exponent : float) : float :=
  if (base =? 2)%float then
    match Num.to_Z exponent with
    | Some k => Z.ldexp 1%float k
    | None => nan
    end
  else nan.

Definition reference_platform : Platform :=
  {| Math_log := table_log; Number_exponentiate := exact_pow2 |}.

(** ** The secure random source (lines 55-59) *)

(** [window.crypto.getRandomValues] as an oracle: [byte_at k] is the k-th
    byte the source ever hands out and [drawn] counts those handed out so
    far.  The oracle always answers: the limit of 65536 bytes per call,
    which a length above 32768 would hit, is not part of the embedding (the
    slider stops at 64). *)
Record RandomSource := mkRandomSource {
  byte_at : nat -> N;
  drawn : nat
}.

(** [getSecureRandomValues(length)]: a fresh [Uint8Array] of [length] bytes,
    filled by the source. *)
Definition getSecureRandomValues (length : nat) (rs : RandomSource)
  : list N * RandomSource :=
  (map (byte_at rs) (seq (drawn rs) length),
   {| byte_at := byte_at rs; drawn := drawn rs + length |}).

(** ** Unbiased sampling (lines 116-138) *)

Section Sampling.

Local Open Scope N_scope.

Variable charset : jsstring.
Variable passwordLength : nat.

(** [charset.length], as the number JavaScript computes with. *)
Definition charset_length : N := N.of_nat (length charset).

(** [256 - (256 % charset.length)] (lines 123 and 135).  On natural
    numbers JavaScript's [%] is the remainder of the division.  A zero
    divisor never gets here (line 108); it would give NaN there, which no
    byte is below, and gives the threshold 0 here, which no byte is below
    either. *)
Definition maxValidValue : N := 256 - 256 mod charset_length.

(** The body of both loops: a byte below [maxValidValue] appends
    [charset[byte % charset.length]], any other byte appends nothing. *)
Definition sample_byte (newPassword : jsstring) (randomValue : N) : jsstring :=
  if randomValue <? maxValidValue then
    let charIndex := randomValue mod charset_length in
    append_index newPassword charset charIndex
  else newPassword.

(** The [for] loop of lines 120-130 over the bytes not yet visited: it
    stops at the end of [randomBytes] or once [newPassword] is long
    enough, whichever comes first. *)
Fixpoint for_loop (randomBytes : list N) (newPassword : jsstring) : jsstring :=
  match randomBytes with
  | [] => newPassword
  | randomValue :: rest =>
      if (length newPassword <? passwordLength)%nat
      then for_loop rest (sample_byte newPassword randomValue)
      else newPassword
  end.

(** [getSecureRandomValues(1)[0]] compared and used as in lines 134-137;
    an empty array would give [undefined], which no comparison accepts. *)
Definition sample_extra (newPassword : jsstring) (bytes : list N) : jsstring :=
  match bytes with
  | extraBytes :: _ => sample_byte newPassword extraBytes
  | [] => newPassword
  end.

(** The [while] loop of lines 133-138, run for at most [fuel] iterations:
    [None] when the password is still too short after that many draws. *)
Fixpoint while_loop (fuel : nat) (newPassword : jsstring) (rs : RandomSource)
  : option (jsstring * RandomSource) :=
  if (length newPassword <? passwordLength)%nat then
    match fuel with
    | O => None
    | S fuel' =>
        let (bytes, rs') := getSecureRandomValues 1 rs in
        while_loop fuel' (sample_extra newPassword bytes) rs'
    end
  else Some (newPassword, rs).

(** Lines 116-138 together. *)
Definition sample_password (fuel : nat) (rs : RandomSource)
  : option (jsstring * RandomSource) :=
  let (randomBytes, rs') := getSecureRandomValues (passwordLength * 2) rs in
  let newPassword := for_loop randomBytes [] in
  while_loop fuel newPassword rs'.

End Sampling.

(** ** Strength estimate (lines 67-84) *)

Section Strength.

Context {platform : Platform}.
Local Open Scope float_scope.

(** [calculateEntropy(charset, length)]. *)
Definition calculateEntropy (charset : jsstring) (length : nat) : float :=
  let charsetSize := Num.of_nat (List.length charset) in
  Num.of_nat length * (Math_log charsetSize / Math_log 2).

(** [getStrengthLevel(entropyValue)]. *)
Definition getStrengthLevel (entropyValue : float) : nat :=
  if entropyValue <? 45 then 0%nat
  else if entropyValue <? 60 then 1%nat
  else if entropyValue <? 80 then 2%nat
  else if entropyValue <? 100 then 3%nat
  else 4%nat.

End Strength.

(** The [labels] array of [getStrengthLabel] (lines 216-218). *)
Definition labels : list jsstring :=
  [units "Very Weak"; units "Weak"; units "Medium"; units "Strong";
   units "Very Strong"].

(** The [classes] array of [getStrengthClass] (lines 247-253). *)
Definition classes : list jsstring :=
  [units "strength-very-weak"; units "strength-weak"; units "strength-medium";
   units "strength-strong"; units "strength-very-strong"].

(** ** Component state (lines 20-38) *)

Record State := mkState {
  password : jsstring;
  passwordLength : nat;
  entropy : float;
  passwordHistory : list jsstring;
  showPasswordHistory : bool;
  copied : bool;
  strengthLevel : nat;
  animateStrength : bool;
  options : Options
}.

(** The arguments of the [useState] calls. *)
Definition initial_state : State :=
  {| password := [];
     passwordLength := 16;
     entropy := 0%float;
     passwordHistory := [];
     showPasswordHistory := false;
     copied := false;
     strengthLevel := 0;
     animateStrength := false;
     options := default_options |}.

Definition setPassword (v : jsstring) (st : State) : State :=
  mkState v (passwordLength st) (entropy st) (passwordHistory st)
          (showPasswordHistory st) (copied st) (strengthLevel st)
          (animateStrength st) (options st).

Definition setPasswordLength (v : nat) (st : State) : State :=
  mkState (password st) v (entropy st) (passwordHistory st)
          (showPasswordHistory st) (copied st) (strengthLevel st)
          (animateStrength st) (options st).

Definition setEntropy (v : float) (st : State) : State :=
  mkState (password st) (passwordLength st) v (passwordHistory st)
          (showPasswordHistory st) (copied st) (strengthLevel st)
          (animateStrength st) (options st).

(** The setter is only ever called with an updater function. *)
Definition setPasswordHistory (f : list jsstring -> list jsstring) (st : State)
  : State :=
  mkState (password st) (passwordLength st) (entropy st)
          (f (passwordHistory st))
          (showPasswordHistory st) (copied st) (strengthLevel st)
          (animateStrength st) (options st).

Definition setShowPasswordHistory (v : bool) (st : State) : State :=
  mkState (password st) (passwordLength st) (entropy st) (passwordHistory st)
          v (copied st) (strengthLevel st) (animateStrength st) (options st).

Definition setCopied (v : bool) (st : State) : State :=
  mkState (password st) (passwordLength st) (entropy st) (passwordHistory st)
          (showPasswordHistory st) v (strengthLevel st) (animateStrength st)
          (options st).

Definition setStrengthLevel (v : nat) (st : State) : State :=
  mkState (password st) (passwordLength st) (entropy st) (passwordHistory st)
          (showPasswordHistory st) (copied st) v (animateStrength st)
          (options st).

Definition setAnimateStrength (v : bool) (st : State) : State :=
  mkState (password st) (passwordLength st) (entropy st) (passwordHistory st)
          (showPasswordHistory st) (copied st) (strengthLevel st) v
          (options st).

Definition setOptions (f : Options -> Options) (st : State) : State :=
  mkState (password st) (passwordLength st) (entropy st) (passwordHistory st)
          (showPasswordHistory st) (copied st) (strengthLevel st)
          (animateStrength st) (f (options st)).

(** The text line 109 puts in the password cell. *)
Definition select_charset_message : jsstring :=
  units "Please select at least one character set".

(** ** generatePassword (lines 90-160) and the display helpers *)

Section Component.

Context {platform : Platform}.

(** One call of [generatePassword] in state [st].  The call returns
    [undefined] on both of its paths and the source throws nowhere, so
    what a call yields is the new state and the random source it leaves
    behind; [None] stands for a [while] loop that has not finished within
    [fuel] draws.  The timer of line 150, which clears [animateStrength]
    half a second later, is the event [AnimationTimeout] below. *)
Definition generatePassword (fuel : nat) (st : State) (rs : RandomSource)
  : option (State * RandomSource) :=
  let charset := build_charset (options st) in
  if (length charset =? 0)%nat then
    Some (setStrengthLevel 0
           (setEntropy 0%float
             (setPassword select_charset_message st)), rs)
  else
    match sample_password charset (passwordLength st) fuel rs with
    | None => None
    | Some (newPassword, rs') =>
        let entropyValue := calculateEntropy charset (passwordLength st) in
        let newStrengthLevel := getStrengthLevel entropyValue in
        Some (setCopied false
               (setPasswordHistory
                  (fun prevHistory => newPassword :: firstn 4 prevHistory)
                  (setAnimateStrength true
                    (setStrengthLevel newStrengthLevel
                      (setEntropy (Num.Math_round entropyValue)
                        (setPassword newPassword st))))),
              rs')
    end.

(** [getStrengthLabel()]: [labels[strengthLevel]]. *)
Definition getStrengthLabel (st : State) : option jsstring :=
  nth_error labels (strengthLevel st).

(** The template literals of lines 233-237: the number, then the unit. *)
Definition template (x : float) (unit_name : string) : option jsstring :=
  option_map (fun number => number ++ units unit_name) (Num.Number_toString x).

(** [getCrackTimeEstimation()]; it reads the [entropy] cell. *)
Definition getCrackTimeEstimation (st : State) : option jsstring :=
  let guessesPerSecond := 10000000000%float in
  let possibleCombinations := Number_exponentiate 2%float (entropy st) in
  let seconds := (possibleCombinations / guessesPerSecond / 2)%float in
  if (seconds <? 1)%float then Some (units "Instantly")
  else if (seconds <? 60)%float then
    template (Num.Math_round seconds) " seconds"
  else if (seconds <? 3600)%float then
    template (Num.Math_round (seconds / 60)) " minutes"
  else if (seconds <? 86400)%float then
    template (Num.Math_round (seconds / 3600)) " hours"
  else if (seconds <? 31536000)%float then
    template (Num.Math_round (seconds / 86400)) " days"
  else if (seconds <? 31536000 * 100)%float then
    template (Num.Math_round (seconds / 31536000)) " years"
  else Some (units "Millions of years").

End Component.

(** ** The component as a transition system *)

(** The [name] attribute of the six checkboxes. *)
Inductive option_name :=
| Lowercase | Uppercase | Numbers | Symbols | Ambiguous | ExtendedAscii.

(** [{ ...prevOptions, [name]: checked }]. *)
Definition set_option (name : option_name) (checked : bool) (o : Options)
  : Options :=
  match name with
  | Lowercase =>
      mkOptions checked (uppercase o) (numbers o) (symbols o) (ambiguous o)
                (extendedAscii o)
  | Uppercase =>
      mkOptions (lowercase o) checked (numbers o) (symbols o) (ambiguous o)
                (extendedAscii o)
  | Numbers =>
      mkOptions (lowercase o) (uppercase o) checked (symbols o) (ambiguous o)
                (extendedAscii o)
  | Symbols =>
      mkOptions (lowercase o) (uppercase o) (numbers o) checked (ambiguous o)
                (extendedAscii o)
  | Ambiguous =>
      mkOptions (lowercase o) (uppercase o) (numbers o) (symbols o) checked
                (extendedAscii o)
  | ExtendedAscii =>
      mkOptions (lowercase o) (uppercase o) (numbers o) (symbols o)
                (ambiguous o) checked
  end.

(** [handleOptionChange(e)] (lines 203-209). *)
Definition handleOptionChange (name : option_name) (checked : bool) (st : State)
  : State :=
  setOptions (set_option name checked) st.

(** What can happen to a mounted component. *)
Inductive event :=
| ClickGenerate
| ChangeOption (name : option_name) (checked : bool)
| ChangeLength (value : nat)
| ToggleHistory
| UseHistoryItem (index : nat)
| Copied
| CopiedTimeout
| AnimationTimeout.



Section Transitions.

Context {platform : Platform}.

(** One event.  [generatePassword] is memoised on [options] and
    [passwordLength] and the effect of lines 163-165 depends on it, so a
    new [options] object or a different length re-runs the generation
    after the render; setting the length to the value it has changes
    nothing. *)
Definition dispatch (fuel : nat) (ev : event) (st : State) (rs : RandomSource)
  : option (State * RandomSource) :=
  match ev with
  | ClickGenerate => generatePassword fuel st rs
  | ChangeOption name checked =>
      generatePassword fuel (handleOptionChange name checked st) rs
  | ChangeLength value =>
      if (value =? passwordLength st)%nat then Some (st, rs)
      else generatePassword fuel (setPasswordLength value st) rs
  | ToggleHistory =>
      Some (setShowPasswordHistory (negb (showPasswordHistory st)) st, rs)
  | UseHistoryItem index =>
      match nth_error (passwordHistory st) index with
      | Some historyItem =>
          Some (setCopied false (setPassword historyItem st), rs)
      | None => Some (st, rs)
      end
  | Copied => Some (setCopied true st, rs)
  | CopiedTimeout => Some (setCopied false st, rs)
  | AnimationTimeout => Some (setAnimateStrength false st, rs)
  end.

(** The first render: the initial cells, then the effect runs
    [generatePassword] once. *)
Definition mount (fuel : nat) (rs : RandomSource)
  : option (State * RandomSource) :=
  generatePassword fuel initial_state rs.

(** A sequence of events, each given [fuel] draws for its top-up loop. *)
Fixpoint run (fuel : nat) (evs : list event) (st : State) (rs : RandomSource)
  : option (State * RandomSource) :=
  match evs with
  | [] => Some (st, rs)
  | ev :: evs' =>
      match dispatch fuel ev st rs with
      | Some (st', rs') => run fuel evs' st' rs'
      | None => None
      end
  end.

(** A session: mount, then the events. *)
Definition session (fuel : nat) (evs : list event) (rs : RandomSource)
  : option (State * RandomSource) :=
  match mount fuel rs with
  | Some (st, rs') => run fuel evs st rs'
  | None => None
  end.

End Transitions.

(** [getStrengthClass()] (lines 246-255): [classes[strengthLevel]]. *)
Definition getStrengthClass (st : State) : option jsstring :=
  nth_error classes (strengthLevel st).

(** * Vocabulary of the statements *)

(** ** Character sets *)

(** [c] is a character of a class whose checkbox is ticked. *)
Definition in_included_class (o : Options) (c : char) : Prop :=
  (lowercase o = true /\ In c charSets.lowercase) \/
  (uppercase o = true /\ In c charSets.uppercase) \/
  (numbers o = true /\ In c charSets.numbers) \/
  (symbols o = true /\ In c charSets.symbols) \/
  (extendedAscii o = true /\ In c charSets.extendedAscii).

(** The characters a policy makes eligible. *)
Definition eligible (o : Options) (c : char) : Prop :=
  in_included_class o c /\ (ambiguous o = true \/ ~ In c charSets.ambiguous).

(** A boolean test for the absence of repetitions. *)
Fixpoint distinct (s : jsstring) : bool :=
  match s with
  | [] => true
  | c :: s' => negb (existsb (Z.eqb c) s') && distinct s'
  end.

(** ** Random bytes *)

(** The bytes the source hands out next, and the source after [n] draws. *)
Definition upcoming (rs : RandomSource) (n : nat) : list N :=
  map (byte_at rs) (seq (drawn rs) n).

Definition advance (n : nat) (rs : RandomSource) : RandomSource :=
  {| byte_at := byte_at rs; drawn := drawn rs + n |}.

(** A byte the loops turn into a character. *)
Definition accepted (charset : jsstring) (b : N) : bool :=
  (b <? maxValidValue charset)%N.

Definition accepted_count (charset : jsstring) (bytes : list N) : nat :=
  length (filter (accepted charset) bytes).

(** Every value a byte can take, and those the loops skip. *)
Definition all_bytes : list N := map N.of_nat (seq 0 256).

Definition rejected_values (charset : jsstring) : list N :=
  filter (fun b => negb (accepted charset b)) all_bytes.

(** The same values for a set of [n] characters, and the bound on their
    number as a test. *)
Definition rejected_for_size (n : N) : list N :=
  filter (fun b => negb (b <? 256 - 256 mod n)%N) all_bytes.

Definition rate_check (n : N) : bool :=
  (N.of_nat (length (rejected_for_size n)) =? 256 mod n)%N &&
  (256 mod n <? 128)%N.

(** Two sources for the examples: one that only ever hands out the byte 0,
    and one that walks through the bytes in steps of 37. *)
Definition zero_source : RandomSource :=
  {| byte_at := fun _ => 0%N; drawn := 0 |}.

Definition stepping_source : RandomSource :=
  {| byte_at := fun k => (N.of_nat k * 37 mod 256)%N; drawn := 0 |}.

(** ** States and sessions *)

(** The options with every box unticked, and the component in its initial
    state but for them. *)
Definition no_options : Options :=
  mkOptions false false false false false false.

Definition nothing_selected : State :=
  setOptions (fun _ => no_options) initial_state.

(** Upper-case letters, digits and symbols without the ambiguous
    characters: 24 + 8 + 32 = 64 characters. *)
Definition upper_digits_symbols : Options :=
  mkOptions false true true true false false.

(** Symbols only with length 8: exactly 40 bits.  Digits only, ambiguous
    ones included, with length 12: about 39.86 bits. *)
Definition symbols_8 : State :=
  setPasswordLength 8
    (setOptions (fun _ => mkOptions false false false true false false)
                initial_state).

Definition digits_12 : State :=
  setPasswordLength 12
    (setOptions (fun _ => mkOptions false false true false true false)
                initial_state).



(** Seven generations in a row: the first render and six clicks. *)
Definition six_clicks : list event :=
  [ClickGenerate; ClickGenerate; ClickGenerate; ClickGenerate; ClickGenerate;
   ClickGenerate].




(** ** More vocabulary *)

(** What [+= charset[b % charset.length]] appends for the byte [b], and for
    a run of bytes one after the other. *)
Definition pick (charset : jsstring) (b : N) : jsstring :=
  match index charset (b mod charset_length charset)%N with
  | Some c => [c]
  | None => undefined_text
  end.

Definition picked (charset : jsstring) (bytes : list N) : jsstring :=
  flat_map (pick charset) bytes.

(** The byte values the loops turn into the character at index [i] of a set
    of [n] characters. *)
Definition bytes_for_index (n i : N) : list N :=
  filter (fun b => (b <? 256 - 256 mod n)%N && (b mod n =? i)%N) all_bytes.

(** The indices the accepted byte values lead to, and the test that every
    index of the set occurs [256 / n] times among them. *)
Definition accepted_indices (n : N) : list N :=
  map (fun b => (b mod n)%N)
      (filter (fun b => (b <? 256 - 256 mod n)%N) all_bytes).

Definition uniform_check (n : N) : bool :=
  let indices := accepted_indices n in
  forallb (fun i =>
             (N.of_nat (length (filter (fun r => (r =? i)%N) indices))
              =? 256 / n)%N)
          (map N.of_nat (seq 0 (N.to_nat n))).

(** A source that only ever hands out the byte 255. *)
Definition stuck_source : RandomSource :=
  {| byte_at := fun _ => 255%N; drawn := 0 |}.

(** The estimate for a whole number of bits on the reference platform. *)
Definition reference_estimate (bits : nat) : option jsstring :=
  getCrackTimeEstimation (platform := reference_platform)
                         (setEntropy (Num.of_nat bits) initial_state).

(** A session that unticks every class and ticks one again. *)
Definition untick_all : list event :=
  [ChangeOption Lowercase false; ChangeOption Uppercase false;
   ChangeOption Numbers false; ChangeOption Symbols false;
   UseHistoryItem 2; ChangeOption ExtendedAscii true].

(** What the page shows of the strength: the label and the CSS class. *)
Definition strength_shown (st : State) : Prop :=
  exists label class,
    getStrengthLabel st = Some label /\ In label labels /\
    getStrengthClass st = Some class /\ In class classes.

(** The password shown is the "select a character set" message or one of
    the remembered passwords. *)
Definition password_known (st : State) : Prop :=
  password st = select_charset_message \/
  In (password st) (passwordHistory st).

(** ** Order of binary64 values *)

Section FloatRank.

Local Open Scope Z_scope.

(** Where a value that is not NaN stands on the number line: its class
    (negative infinity, negative, zero, positive, positive infinity), then
    exponent and mantissa, which order the finite values of one sign. *)
Definition rank (f : spec_float) : option (Z * Z * Z) :=
  match f with
  | S754_nan => None
  | S754_infinity true => Some (-2, 0, 0)
  | S754_finite true m e => Some (-1, - e, Z.neg m)
  | S754_zero _ => Some (0, 0, 0)
  | S754_finite false m e => Some (1, e, Z.pos m)
  | S754_infinity false => Some (2, 0, 0)
  end.

Definition lex3 (a b : Z * Z * Z) : comparison :=
  let '(a1, a2, a3) := a in
  let '(b1, b2, b3) := b in
  match a1 ?= b1 with
  | Eq => match a2 ?= b2 with
          | Eq => a3 ?= b3
          | c => c
          end
  | c => c
  end.

Definition lt3 (a b : Z * Z * Z) : Prop :=
  let '(a1, a2, a3) := a in
  let '(b1, b2, b3) := b in
  a1 < b1 \/ (a1 = b1 /\ (a2 < b2 \/ (a2 = b2 /\ a3 < b3))).

End FloatRank.

(** * Properties *)

(** ** The character set *)

Section CharsetFacts.

Local Open Scope Z_scope.

Lemma starts_with_unit (c : char) (s : jsstring) :
  starts_with [c] s = match s with [] => false | b :: _ => c =? b end.
Proof.
  destruct s as [|b s']; simpl; [reflexivity|].
  now rewrite andb_true_r.
Qed.

(** Searching a one-unit string is a membership test on code units. *)
Lemma includes_unit (s : jsstring) (c : char) :
  includes s [c] = existsb (Z.eqb c) s.
Proof.
  induction s as [|b s' IH].
  - reflexivity.
  - cbn [includes existsb]. rewrite starts_with_unit, IH. reflexivity.
Qed.

Lemma includes_unit_In (s : jsstring) (c : char) :
  includes s [c] = true <-> In c s.
Proof.
  rewrite includes_unit, existsb_exists. split.
  - intros [x [Hin Heq]]. apply Z.eqb_eq in Heq. now subst.
  - intros Hin. exists c. split; [assumption | apply Z.eqb_refl].
Qed.

(** Splitting, filtering the one-unit strings and joining is a filter on
    the code units. *)
Lemma remove_ambiguous_filter (charset : jsstring) :
  remove_ambiguous charset =
  filter (fun c => negb (existsb (Z.eqb c) charSets.ambiguous)) charset.
Proof.
  unfold remove_ambiguous, join_empty, split_empty.
  induction charset as [|c cs IH]; [reflexivity|].
  cbn [map filter]. rewrite includes_unit.
  destruct (existsb (Z.eqb c) charSets.ambiguous); cbn [negb concat app];
    now rewrite IH.
Qed.

Lemma In_remove_ambiguous (charset : jsstring) (c : char) :
  In c (remove_ambiguous charset) <->
  In c charset /\ ~ In c charSets.ambiguous.
Proof.
  rewrite remove_ambiguous_filter, filter_In, negb_true_iff.
  rewrite <- includes_unit, <- not_true_iff_false, includes_unit_In.
  reflexivity.
Qed.

Lemma In_add_if (flag : bool) (cls charset : jsstring) (c : char) :
  In c (add_if flag cls charset) <-> In c charset \/ (flag = true /\ In c cls).
Proof.
  unfold add_if. destruct flag.
  - rewrite in_app_iff. intuition.
  - intuition discriminate.
Qed.

Lemma In_selected_chars (o : Options) (c : char) :
  In c (selected_chars o) <-> in_included_class o c.
Proof.
  unfold selected_chars, in_included_class.
  cbv zeta. rewrite !In_add_if. cbn [In]. tauto.
Qed.

Lemma In_build_charset (o : Options) (c : char) :
  In c (build_charset o) <-> eligible o c.
Proof.
  unfold build_charset, eligible. cbv zeta.
  destruct (ambiguous o); cbn [negb].
  - rewrite In_selected_chars. tauto.
  - rewrite In_remove_ambiguous, In_selected_chars.
    intuition discriminate.
Qed.

Lemma distinct_NoDup (s : jsstring) : distinct s = true -> NoDup s.
Proof.
  induction s as [|c s' IH]; cbn [distinct]; intros H.
  - constructor.
  - apply andb_true_iff in H as [Hc Hs]. constructor; [|now apply IH].
    apply negb_true_iff in Hc. intros Hin.
    assert (existsb (Z.eqb c) s' = true) as Hex
      by (apply existsb_exists; exists c; split;
          [assumption | apply Z.eqb_refl]).
    congruence.
Qed.

Lemma build_charset_distinct (o : Options) : distinct (build_charset o) = true.
Proof.
  destruct o as [[] [] [] [] [] []]; vm_compute; reflexivity.
Qed.

End CharsetFacts.

(** C4.  For an ambiguous character [c] (one of I, l, 1, O, 0): with the
    "include ambiguous characters" box unticked the built character set does
    not contain [c]; with the box ticked it contains [c] as soon as [c]
    belongs to a class whose box is ticked. *)
Theorem build_charset_ambiguous (o : Options) (c : char) :
  In c charSets.ambiguous ->
  (ambiguous o = false -> ~ In c (build_charset o)) /\
  (ambiguous o = true -> in_included_class o c -> In c (build_charset o)).
Proof.
  intros Hamb. split.
  - intros Hflag Hin. apply In_build_charset in Hin.
    destruct Hin as [_ [Htrue | Hnot]]; [congruence | contradiction].
  - intros Hflag Hclass. apply In_build_charset. split; [assumption|].
    now left.
Qed.

(** The letter l under the default options (ambiguous characters excluded)
    and under the same options with the box ticked. *)
Lemma build_charset_ambiguous_witness :
  ~ In 108%Z (build_charset default_options) /\
  In 108%Z (build_charset (set_option Ambiguous true default_options)).
Proof.
  assert (In 108%Z charSets.ambiguous) as Hamb by (vm_compute; tauto).
  split.
  - apply (proj1 (build_charset_ambiguous default_options 108%Z Hamb)).
    reflexivity.
  - apply (proj2 (build_charset_ambiguous
                    (set_option Ambiguous true default_options) 108%Z Hamb)).
    + reflexivity.
    + left. split; [reflexivity | vm_compute; tauto].
Defined.

(** C5.  The built character set has no repeated entry, so its length is
    the number of distinct characters the policy makes eligible: any
    repetition-free enumeration of the eligible characters has that
    length. *)
Theorem build_charset_NoDup (o : Options) :
  NoDup (build_charset o) /\
  forall l : jsstring,
    NoDup l -> (forall c, In c l <-> eligible o c) ->
    length l = length (build_charset o).
Proof.
  assert (NoDup (build_charset o)) as Hnd
    by (apply distinct_NoDup, build_charset_distinct).
  split; [assumption|].
  intros l Hl Hmem.
  apply Nat.le_antisymm; apply NoDup_incl_length; try assumption;
    intros c Hc.
  - apply In_build_charset, Hmem, Hc.
  - apply Hmem, In_build_charset, Hc.
Qed.

(** The default character set, enumerated backwards, has its 89 entries. *)
Lemma build_charset_NoDup_witness :
  length (rev (build_charset default_options)) = 89%nat.
Proof.
  rewrite (proj2 (build_charset_NoDup default_options)
                 (rev (build_charset default_options))).
  - reflexivity.
  - apply NoDup_rev, (proj1 (build_charset_NoDup default_options)).
  - intros c. rewrite <- in_rev. apply In_build_charset.
Defined.

(** ** Rejection sampling *)

Section SamplingFacts.

Variable charset : jsstring.
Variable L : nat.
Hypothesis charset_nonempty : charset <> [].

Local Abbreviation in_charset := (Forall (fun c => In c charset)).

Lemma charset_length_pos : (0 < charset_length charset)%N.
Proof.
  unfold charset_length. destruct charset; [contradiction | cbn; lia].
Qed.

(** [b % charset.length] always indexes a character of the set. *)
Lemma index_mod (b : N) :
  exists c, index charset (b mod charset_length charset) = Some c /\
            In c charset.
Proof.
  pose proof charset_length_pos as Hpos.
  assert (N.to_nat (b mod charset_length charset) < length charset) as Hlt.
  { pose proof (N.mod_lt b (charset_length charset)) as Hm.
    unfold charset_length in *. lia. }
  unfold index.
  destruct (nth_error charset (N.to_nat (b mod charset_length charset)))
    as [c|] eqn:Hnth.
  - exists c. split; [reflexivity | eapply nth_error_In; eassumption].
  - apply nth_error_None in Hnth. lia.
Qed.

Lemma sample_byte_accepted (np : jsstring) (b : N) :
  accepted charset b = true ->
  exists c, index charset (b mod charset_length charset) = Some c /\
            In c charset /\ sample_byte charset np b = np ++ [c].
Proof.
  intros Hacc. destruct (index_mod b) as [c [Hidx Hin]].
  exists c. repeat split; try assumption.
  unfold sample_byte, append_index. unfold accepted in Hacc.
  now rewrite Hacc, Hidx.
Qed.

Lemma sample_byte_rejected (np : jsstring) (b : N) :
  accepted charset b = false -> sample_byte charset np b = np.
Proof.
  intros Hrej. unfold sample_byte. unfold accepted in Hrej.
  now rewrite Hrej.
Qed.

Lemma sample_byte_length (np : jsstring) (b : N) :
  length (sample_byte charset np b) =
  length np + (if accepted charset b then 1 else 0).
Proof.
  destruct (accepted charset b) eqn:Hacc.
  - destruct (sample_byte_accepted np b Hacc) as [c [_ [_ ->]]].
    now rewrite length_app.
  - rewrite sample_byte_rejected by assumption. lia.
Qed.

Lemma sample_byte_members (np : jsstring) (b : N) :
  in_charset np -> in_charset (sample_byte charset np b).
Proof.
  intros Hnp. destruct (accepted charset b) eqn:Hacc.
  - destruct (sample_byte_accepted np b Hacc) as [c [_ [Hin ->]]].
    apply Forall_app. split; [assumption | now constructor].
  - now rewrite sample_byte_rejected.
Qed.

(** The [for] loop keeps one character per accepted byte until the
    password is full. *)
Lemma for_loop_length (bytes : list N) (np : jsstring) :
  length np <= L ->
  length (for_loop charset L bytes np) =
  Nat.min L (length np + accepted_count charset bytes).
Proof.
  revert np. induction bytes as [|b rest IH]; intros np Hnp.
  - cbn. unfold accepted_count. cbn. lia.
  - cbn [for_loop]. destruct (length np <? L) eqn:Hlt.
    + apply Nat.ltb_lt in Hlt.
      pose proof (sample_byte_length np b) as Hlen.
      rewrite IH by (destruct (accepted charset b); lia).
      rewrite Hlen. unfold accepted_count. cbn [filter].
      destruct (accepted charset b); cbn [length]; lia.
    + apply Nat.ltb_ge in Hlt. lia.
Qed.

Lemma for_loop_members (bytes : list N) (np : jsstring) :
  in_charset np -> in_charset (for_loop charset L bytes np).
Proof.
  revert np. induction bytes as [|b rest IH]; intros np Hnp; cbn [for_loop].
  - assumption.
  - destruct (length np <? L); [|assumption].
    apply IH, sample_byte_members, Hnp.
Qed.

Lemma upcoming_S (rs : RandomSource) (n : nat) :
  upcoming rs (S n) = byte_at rs (drawn rs) :: upcoming (advance 1 rs) n.
Proof.
  unfold upcoming, advance. cbn [seq map drawn byte_at].
  now rewrite Nat.add_1_r.
Qed.

Lemma upcoming_app (rs : RandomSource) (n m : nat) :
  upcoming rs (n + m) = upcoming rs n ++ upcoming (advance n rs) m.
Proof.
  unfold upcoming, advance. cbn [drawn byte_at].
  now rewrite seq_app, map_app.
Qed.

Lemma accepted_count_app (xs ys : list N) :
  accepted_count charset (xs ++ ys) =
  accepted_count charset xs + accepted_count charset ys.
Proof.
  unfold accepted_count. now rewrite filter_app, length_app.
Qed.

(** The [while] loop finishes as soon as the source has handed out the
    accepted bytes still missing, and it finishes with a full password. *)
Lemma while_loop_complete (n : nat) :
  forall (fuel : nat) (np : jsstring) (rs : RandomSource),
    length np <= L -> in_charset np ->
    L <= length np + accepted_count charset (upcoming rs n) ->
    n <= fuel ->
    exists pw rs',
      while_loop charset L fuel np rs = Some (pw, rs') /\
      length pw = L /\ in_charset pw.
Proof.
  induction n as [|n IH]; intros fuel np rs Hle Hin Hacc Hfuel.
  - unfold accepted_count in Hacc. cbn in Hacc.
    exists np, rs. assert (length np = L) as Heq by lia.
    destruct fuel; cbn [while_loop];
      (replace (length np <? L) with false
         by (symmetry; apply Nat.ltb_ge; lia)); auto.
  - destruct (length np <? L) eqn:Hlt.
    + apply Nat.ltb_lt in Hlt.
      destruct fuel as [|fuel]; [lia|].
      cbn [while_loop]. rewrite (proj2 (Nat.ltb_lt _ _) Hlt).
      change (getSecureRandomValues 1 rs)
        with (upcoming rs 1, advance 1 rs).
      cbv iota beta. rewrite upcoming_S. cbn [upcoming seq map sample_extra].
      rewrite upcoming_S in Hacc. unfold accepted_count in Hacc.
      cbn [filter] in Hacc.
      pose proof (sample_byte_length np (byte_at rs (drawn rs))) as Hlen.
      apply IH.
      * destruct (accepted charset (byte_at rs (drawn rs))); lia.
      * apply sample_byte_members, Hin.
      * unfold accepted_count.
        destruct (accepted charset (byte_at rs (drawn rs)));
          cbn [length] in Hacc; lia.
      * lia.
    + apply Nat.ltb_ge in Hlt. exists np, rs.
      assert (length np = L) as Heq by lia.
      destruct fuel; cbn [while_loop];
        (replace (length np <? L) with false
           by (symmetry; apply Nat.ltb_ge; lia)); auto.
Qed.

(** Lines 116-138: whenever the source holds [L] accepted bytes among its
    next [n], sampling ends with exactly [L] characters of the set; the
    top-up loop draws only what lies beyond the batch of [2 * L] bytes. *)
Lemma sample_password_complete (n fuel : nat) (rs : RandomSource) :
  L <= accepted_count charset (upcoming rs n) ->
  n - L * 2 <= fuel ->
  exists pw rs',
    sample_password charset L fuel rs = Some (pw, rs') /\
    length pw = L /\ in_charset pw.
Proof.
  intros Hacc Hfuel. unfold sample_password.
  change (getSecureRandomValues (L * 2) rs)
    with (upcoming rs (L * 2), advance (L * 2) rs).
  cbv iota beta.
  pose proof (for_loop_length (upcoming rs (L * 2)) []) as Hlen.
  cbn [length] in Hlen. specialize (Hlen (Nat.le_0_l L)).
  pose proof (for_loop_members (upcoming rs (L * 2)) [] (Forall_nil _))
    as Hmem.
  apply (while_loop_complete (n - L * 2)); try assumption; try lia.
  rewrite Hlen.
  destruct (Nat.le_gt_cases n (L * 2)) as [Hsmall | Hbig].
  - (* the accepted bytes all lie in the first batch *)
    assert (accepted_count charset (upcoming rs n)
            <= accepted_count charset (upcoming rs (L * 2))) as Hpre.
    { replace (L * 2) with (n + (L * 2 - n)) by lia.
      rewrite upcoming_app, accepted_count_app. lia. }
    lia.
  - replace n with (L * 2 + (n - L * 2)) in Hacc by lia.
    rewrite upcoming_app, accepted_count_app in Hacc. lia.
Qed.

End SamplingFacts.

(** ** The password as a function of the bytes *)

Section PickedFacts.

Variable charset : jsstring.
Variable L : nat.
Hypothesis charset_nonempty : charset <> [].

Lemma sample_byte_pick (np : jsstring) (b : N) :
  sample_byte charset np b =
  np ++ (if accepted charset b then pick charset b else []).
Proof.
  unfold sample_byte, accepted, append_index, pick.
  destruct (b <? maxValidValue charset)%N; [reflexivity|].
  now rewrite app_nil_r.
Qed.

Lemma pick_length (b : N) : length (pick charset b) = 1.
Proof.
  unfold pick. destruct (index_mod charset charset_nonempty b) as [c [-> _]].
  reflexivity.
Qed.

Lemma picked_length (bytes : list N) :
  length (picked charset bytes) = length bytes.
Proof.
  induction bytes as [|b bytes IH]; [reflexivity|].
  unfold picked in *. cbn [flat_map]. rewrite length_app, pick_length, IH.
  reflexivity.
Qed.

Lemma picked_app (xs ys : list N) :
  picked charset (xs ++ ys) = picked charset xs ++ picked charset ys.
Proof. unfold picked. apply flat_map_app. Qed.

(** The [for] loop appends the characters of the first accepted bytes
    that still fit. *)
Lemma for_loop_picked (bytes : list N) (np : jsstring) :
  length np <= L ->
  for_loop charset L bytes np =
  np ++ picked charset
          (firstn (L - length np) (filter (accepted charset) bytes)).
Proof.
  revert np. induction bytes as [|b rest IH]; intros np Hnp.
  - cbn. rewrite firstn_nil. cbn. now rewrite app_nil_r.
  - cbn [for_loop filter]. destruct (length np <? L) eqn:Hlt.
    + apply Nat.ltb_lt in Hlt. rewrite sample_byte_pick.
      destruct (accepted charset b).
      * rewrite IH by (rewrite length_app, pick_length; lia).
        rewrite length_app, pick_length.
        replace (L - length np) with (S (L - (length np + 1))) by lia.
        cbn [firstn]. unfold picked at 2. cbn [flat_map].
        now rewrite <- app_assoc.
      * rewrite app_nil_r. now apply IH.
    + apply Nat.ltb_ge in Hlt.
      replace (L - length np) with 0 by lia.
      cbn. now rewrite app_nil_r.
Qed.

(** So does the [while] loop, byte by byte from the source; it draws no
    more than the [n] bytes that hold the accepted ones it needs. *)
Lemma while_loop_picked (n : nat) :
  forall (fuel : nat) (np : jsstring) (rs : RandomSource),
    length np <= L ->
    L <= length np + accepted_count charset (upcoming rs n) ->
    n <= fuel ->
    exists rs',
      while_loop charset L fuel np rs =
        Some (np ++ picked charset
                      (firstn (L - length np)
                              (filter (accepted charset) (upcoming rs n))),
              rs') /\
      byte_at rs' = byte_at rs /\
      drawn rs <= drawn rs' <= drawn rs + n.
Proof.
  induction n as [|n IH]; intros fuel np rs Hle Hacc Hfuel.
  - unfold accepted_count in Hacc. cbn in Hacc.
    assert (length np = L) as Heq by lia.
    exists rs. split; [|split; [reflexivity | lia]].
    replace (L - length np) with 0 by lia. cbn. rewrite app_nil_r.
    destruct fuel; cbn [while_loop];
      (replace (length np <? L) with false
         by (symmetry; apply Nat.ltb_ge; lia)); reflexivity.
  - destruct (length np <? L) eqn:Hlt.
    + apply Nat.ltb_lt in Hlt.
      destruct fuel as [|fuel]; [lia|].
      cbn [while_loop]. rewrite (proj2 (Nat.ltb_lt _ _) Hlt).
      change (getSecureRandomValues 1 rs)
        with (upcoming rs 1, advance 1 rs).
      cbv iota beta. rewrite (upcoming_S rs 0), (upcoming_S rs n).
      cbn [upcoming seq map sample_extra filter].
      rewrite (upcoming_S rs n) in Hacc. unfold accepted_count in Hacc.
      cbn [filter] in Hacc.
      rewrite sample_byte_pick.
      destruct (accepted charset (byte_at rs (drawn rs))).
      * cbn [length] in Hacc.
        destruct (IH fuel (np ++ pick charset (byte_at rs (drawn rs)))
                     (advance 1 rs))
          as [rs' [Hrun [Hbytes Hdrawn]]].
        -- rewrite length_app, pick_length. lia.
        -- rewrite length_app, pick_length. unfold accepted_count. lia.
        -- lia.
        -- exists rs'. split; [|split].
           ++ rewrite Hrun, length_app, pick_length.
              replace (L - length np) with (S (L - (length np + 1))) by lia.
              cbn [firstn]. unfold picked at 2. cbn [flat_map].
              now rewrite <- app_assoc.
           ++ exact Hbytes.
           ++ cbn [advance drawn] in Hdrawn. lia.
      * rewrite app_nil_r.
        destruct (IH fuel np (advance 1 rs)) as [rs' [Hrun [Hbytes Hdrawn]]];
          try assumption; try lia.
        exists rs'. split; [exact Hrun|]. split; [exact Hbytes|].
        cbn [advance drawn] in Hdrawn. lia.
    + apply Nat.ltb_ge in Hlt. assert (length np = L) as Heq by lia.
      exists rs. split; [|split; [reflexivity | lia]].
      replace (L - length np) with 0 by lia. cbn. rewrite app_nil_r.
      destruct fuel; cbn [while_loop];
        (replace (length np <? L) with false
           by (symmetry; apply Nat.ltb_ge; lia)); reflexivity.
Qed.

(** Lines 116-138 keep the first [L] accepted bytes of the source, in the
    order of the source: the batch and the top-up draws do not show. *)
Lemma sample_password_picked (n fuel : nat) (rs : RandomSource) :
  L <= accepted_count charset (upcoming rs n) ->
  n - L * 2 <= fuel ->
  exists rs',
    sample_password charset L fuel rs =
      Some (picked charset
                   (firstn L (filter (accepted charset) (upcoming rs n))),
            rs') /\
    byte_at rs' = byte_at rs /\
    drawn rs + L * 2 <= drawn rs' <= drawn rs + Nat.max (L * 2) n.
Proof.
  intros Hacc Hfuel. unfold sample_password.
  change (getSecureRandomValues (L * 2) rs)
    with (upcoming rs (L * 2), advance (L * 2) rs).
  cbv iota beta.
  rewrite (for_loop_picked (upcoming rs (L * 2)) [])
    by (cbn; lia).
  cbn [app length]. rewrite Nat.sub_0_r.
  set (batch := filter (accepted charset) (upcoming rs (L * 2))).
  set (np := picked charset (firstn L batch)).
  assert (length np = Nat.min L (length batch)) as Hnp
    by (unfold np; now rewrite picked_length, length_firstn).
  destruct (while_loop_picked (n - L * 2) fuel np (advance (L * 2) rs))
    as [rs' [Hrun [Hbytes Hdrawn]]]; try lia.
  { (* enough accepted bytes beyond the batch *)
    rewrite Hnp. fold (accepted_count charset (upcoming rs (L * 2))) in *.
    destruct (Nat.le_gt_cases n (L * 2)) as [Hsmall | Hbig].
    - assert (accepted_count charset (upcoming rs n) <= length batch).
      { unfold batch. fold (accepted_count charset (upcoming rs (L * 2))).
        replace (L * 2) with (n + (L * 2 - n)) by lia.
        rewrite upcoming_app, accepted_count_app. lia. }
      lia.
    - replace n with (L * 2 + (n - L * 2)) in Hacc by lia.
      rewrite upcoming_app, accepted_count_app in Hacc.
      fold batch in Hacc. unfold accepted_count in Hacc at 1.
      fold batch in Hacc. lia. }
  exists rs'. split; [|split].
  - rewrite Hrun. f_equal. f_equal.
    destruct (Nat.le_gt_cases n (L * 2)) as [Hsmall | Hbig].
    + (* the first [n] bytes lie in the batch *)
      replace (n - L * 2) with 0 by lia. cbn [upcoming seq map filter].
      rewrite firstn_nil. unfold picked at 2. cbn [flat_map].
      rewrite app_nil_r. unfold np, batch.
      replace (L * 2) with (n + (L * 2 - n)) by lia.
      rewrite upcoming_app, filter_app, firstn_app.
      replace (L - length (filter (accepted charset) (upcoming rs n)))
        with 0 by (unfold accepted_count in Hacc; lia).
      cbn [firstn]. now rewrite app_nil_r.
    + replace n with (L * 2 + (n - L * 2)) at 2 by lia.
      rewrite upcoming_app, filter_app, firstn_app. fold batch.
      rewrite picked_app. fold np.
      rewrite Hnp. f_equal. f_equal. f_equal. lia.
  - exact Hbytes.
  - cbn [advance drawn] in Hdrawn. lia.
Qed.

(** With only rejected bytes ahead the [while] loop never fills a password
    that is too short. *)
Lemma while_loop_starved (fuel : nat) :
  forall (np : jsstring) (rs : RandomSource),
    (forall k, accepted charset (byte_at rs k) = false) ->
    length np < L ->
    while_loop charset L fuel np rs = None.
Proof.
  induction fuel as [|fuel IH]; intros np rs Hrej Hlt; cbn [while_loop];
    rewrite (proj2 (Nat.ltb_lt _ _) Hlt); [reflexivity|].
  change (getSecureRandomValues 1 rs) with (upcoming rs 1, advance 1 rs).
  cbv iota beta. rewrite (upcoming_S rs 0). cbn [sample_extra].
  rewrite sample_byte_pick, Hrej, app_nil_r.
  apply IH; [exact Hrej | exact Hlt].
Qed.

Lemma for_loop_starved (bytes : list N) (np : jsstring) :
  Forall (fun b => accepted charset b = false) bytes ->
  for_loop charset L bytes np = np.
Proof.
  revert np. induction bytes as [|b rest IH]; intros np Hrej; [reflexivity|].
  cbn [for_loop]. destruct (length np <? L); [|reflexivity].
  inversion Hrej as [|? ? Hb Hrest]; subst.
  rewrite sample_byte_pick, Hb, app_nil_r. now apply IH.
Qed.

End PickedFacts.

(** C1.  For a character set of size N >= 1 the threshold [maxValidValue]
    is 256 - (256 mod N) and a byte [b] is accepted if and only if it is
    below it.  An accepted byte appends exactly the character at index
    [b mod N], an index below N; a rejected byte appends nothing.  The
    [for] loop returns the password it was given followed, in order, by the
    characters of the accepted bytes of its batch, as many as still fit;
    its rejected bytes leave no trace.  The [while] loop replaces a
    rejected byte by a further draw, and as soon as the source has handed
    out the accepted bytes still missing it returns the password followed
    by their characters. *)
Theorem rejection_sampling_step
    (charset np : jsstring) (L : nat) (b : N) :
  1 <= length charset ->
  length np <= L ->
  (maxValidValue charset + 256 mod charset_length charset = 256)%N /\
  (accepted charset b = true <-> (b < maxValidValue charset)%N) /\
  ((b < maxValidValue charset)%N ->
     exists c,
       (b mod charset_length charset < charset_length charset)%N /\
       nth_error charset (N.to_nat (b mod charset_length charset)) = Some c /\
       pick charset b = [c] /\
       sample_byte charset np b = np ++ [c]) /\
  ((maxValidValue charset <= b)%N -> sample_byte charset np b = np) /\
  (forall bytes : list N,
      for_loop charset L bytes np =
      np ++ picked charset
              (firstn (L - length np) (filter (accepted charset) bytes))) /\
  (forall (fuel : nat) (rs : RandomSource),
      length np < L ->
      byte_at rs (drawn rs) = b ->
      (maxValidValue charset <= b)%N ->
      while_loop charset L (S fuel) np rs =
      while_loop charset L fuel np (advance 1 rs)) /\
  (forall (n fuel : nat) (rs : RandomSource),
      L <= length np + accepted_count charset (upcoming rs n) ->
      n <= fuel ->
      exists rs',
        while_loop charset L fuel np rs =
          Some (np ++ picked charset
                        (firstn (L - length np)
                                (filter (accepted charset) (upcoming rs n))),
                rs') /\
        byte_at rs' = byte_at rs /\
        drawn rs <= drawn rs' <= drawn rs + n).
Proof.
  intros Hsize Hroom.
  assert (charset <> []) as Hne
    by (destruct charset; cbn in Hsize; [lia | discriminate]).
  pose proof (charset_length_pos charset Hne) as Hpos.
  split; [|split; [|split; [|split; [|split; [|split]]]]].
  - unfold maxValidValue.
    pose proof (N.Div0.mod_le 256 (charset_length charset)). lia.
  - unfold accepted. apply N.ltb_lt.
  - intros Hlt.
    destruct (index_mod charset Hne b) as [c [Hidx _]].
    exists c. split; [apply N.mod_lt; lia|].
    split; [exact Hidx|].
    assert (pick charset b = [c]) as Hpick
      by (unfold pick; now rewrite Hidx).
    split; [exact Hpick|].
    rewrite sample_byte_pick, <- Hpick.
    unfold accepted. now rewrite (proj2 (N.ltb_lt _ _) Hlt).
  - intros Hge. rewrite sample_byte_pick.
    unfold accepted. rewrite (proj2 (N.ltb_ge _ _) Hge).
    apply app_nil_r.
  - intros bytes. now apply for_loop_picked.
  - intros fuel rs Hlt Hnext Hge.
    cbn [while_loop]. rewrite (proj2 (Nat.ltb_lt _ _) Hlt).
    change (getSecureRandomValues 1 rs) with (upcoming rs 1, advance 1 rs).
    cbv iota beta. rewrite (upcoming_S rs 0). cbn [sample_extra].
    rewrite Hnext, sample_byte_pick.
    unfold accepted. rewrite (proj2 (N.ltb_ge _ _) Hge).
    now rewrite app_nil_r.
  - intros n fuel rs Hacc Hfuel.
    now apply while_loop_picked.
Qed.

(** The set abc has threshold 255.  A batch 255, 4, 254 for a password of
    two characters: 255 is skipped, 4 mod 3 = 1 picks b, 254 mod 3 = 2
    picks c.  The [while] loop on a source handing out 255 and then 4: one
    byte is replaced, the second gives b. *)
Lemma rejection_sampling_step_witness :
  sample_byte (units "abc") [] 254 = units "c" /\
  sample_byte (units "abc") [] 255 = [] /\
  for_loop (units "abc") 2 [255; 4; 254]%N [] = units "bc" /\
  exists rs',
    while_loop (units "abc") 1 2 []
               {| byte_at := fun k => if (k =? 0)%nat then 255%N else 4%N;
                  drawn := 0 |}
      = Some (units "b", rs') /\
    drawn rs' <= 2.
Proof.
  destruct (rejection_sampling_step (units "abc") [] 2 254)
    as [_ [_ [Hacc _]]]; [cbn; lia | cbn; lia |].
  destruct (rejection_sampling_step (units "abc") [] 2 255)
    as [_ [_ [_ [Hrej [Hfor _]]]]]; [cbn; lia | cbn; lia |].
  destruct (rejection_sampling_step (units "abc") [] 1 255)
    as [_ [_ [_ [_ [_ [_ Hwhile]]]]]]; [cbn; lia | cbn; lia |].
  split; [|split; [|split]].
  - destruct Hacc as [c [_ [Hc [_ Heq]]]]; [vm_compute; reflexivity|].
    rewrite Heq. injection Hc as <-. reflexivity.
  - apply Hrej. vm_compute. discriminate.
  - rewrite Hfor. reflexivity.
  - destruct (Hwhile 2 2
                {| byte_at := fun k => if (k =? 0)%nat then 255%N else 4%N;
                   drawn := 0 |})
      as [rs' [Hrun [_ Hdrawn]]]; [vm_compute; lia | lia |].
    exists rs'. split; [exact Hrun | exact (proj2 Hdrawn)].
Defined.

(** ** generatePassword *)

Section GenerateFacts.

Context {platform : Platform}.

(** The state a generation with a non-empty character set ends in. *)
Lemma generatePassword_success
    (fuel : nat) (st st' : State) (rs rs' : RandomSource) :
  build_charset (options st) <> [] ->
  generatePassword fuel st rs = Some (st', rs') ->
  sample_password (build_charset (options st)) (passwordLength st) fuel rs
    = Some (password st', rs') /\
  passwordLength st' = passwordLength st /\
  options st' = options st /\
  entropy st' =
    Num.Math_round
      (calculateEntropy (build_charset (options st)) (passwordLength st)) /\
  strengthLevel st' =
    getStrengthLevel
      (calculateEntropy (build_charset (options st)) (passwordLength st)) /\
  passwordHistory st' = password st' :: firstn 4 (passwordHistory st).
Proof.
  intros Hne Hgen. unfold generatePassword in Hgen.
  destruct (build_charset (options st)) as [|c cs] eqn:Hcs;
    [contradiction|].
  cbn [length Nat.eqb] in Hgen.
  destruct (sample_password (c :: cs) (passwordLength st) fuel rs)
    as [[pw rs1]|]; [|discriminate].
  injection Hgen as <- <-. cbn. auto 10.
Qed.

(** The state a generation with an empty character set ends in. *)
Lemma generatePassword_empty (fuel : nat) (st : State) (rs : RandomSource) :
  build_charset (options st) = [] ->
  generatePassword fuel st rs =
  Some (setStrengthLevel 0
         (setEntropy 0%float (setPassword select_charset_message st)), rs).
Proof.
  intros Hcs. unfold generatePassword. now rewrite Hcs.
Qed.

(** A finished sampling is a finished generation, with the sampled
    password in the password cell. *)
Lemma generatePassword_sampled
    (fuel : nat) (st : State) (rs rs' : RandomSource) (pw : jsstring) :
  build_charset (options st) <> [] ->
  sample_password (build_charset (options st)) (passwordLength st) fuel rs
    = Some (pw, rs') ->
  exists st',
    generatePassword fuel st rs = Some (st', rs') /\
    password st' = pw /\
    passwordLength st' = passwordLength st.
Proof.
  intros Hne Hsample. unfold generatePassword.
  destruct (build_charset (options st)) as [|c cs] eqn:Hcs;
    [contradiction|].
  cbn [length Nat.eqb]. rewrite Hsample.
  eexists. split; [reflexivity|]. cbn. now split.
Qed.

(** No class ticked: nothing to choose from, whatever the sixth box. *)
Lemma build_charset_no_class (o : Options) :
  lowercase o = false -> uppercase o = false -> numbers o = false ->
  symbols o = false -> extendedAscii o = false ->
  build_charset o = [].
Proof.
  intros Hl Hu Hn Hs He. unfold build_charset, selected_chars.
  rewrite Hl, Hu, Hn, Hs, He. cbn. now destruct (ambiguous o).
Qed.

End GenerateFacts.

(** C2.  Whenever the options select a non-empty character set and the
    random source holds at least [passwordLength] accepted bytes among the
    next [n] it hands out, [generatePassword] finishes (its top-up loop
    needs no more than the [n - 2 * passwordLength] draws that lie beyond
    the first batch) with a password of exactly [passwordLength] characters, every
    one of them a member of the built character set. *)
Theorem generatePassword_length_members
    {platform : Platform} (fuel n : nat) (st : State) (rs : RandomSource) :
  build_charset (options st) <> [] ->
  passwordLength st
    <= accepted_count (build_charset (options st)) (upcoming rs n) ->
  n - passwordLength st * 2 <= fuel ->
  exists st' rs',
    generatePassword fuel st rs = Some (st', rs') /\
    length (password st') = passwordLength st /\
    Forall (fun c => In c (build_charset (options st))) (password st').
Proof.
  intros Hne Hacc Hfuel.
  destruct (sample_password_complete
              (build_charset (options st)) (passwordLength st)
              Hne n fuel rs Hacc Hfuel)
    as [pw [rs' [Hsample [Hlen Hmem]]]].
  destruct (generatePassword_sampled fuel st rs rs' pw Hne Hsample)
    as [st' [Hgen [Hpw _]]].
  exists st', rs'. rewrite Hpw. now repeat split.
Qed.

(** The first render, fed by the stepping source: 16 characters, no top-up
    draw needed. *)
Lemma generatePassword_length_members_witness :
  exists st' rs',
    generatePassword (platform := reference_platform) 0
                     initial_state stepping_source = Some (st', rs') /\
    length (password st') = 16 /\
    Forall (fun c => In c (build_charset default_options)) (password st').
Proof.
  apply (generatePassword_length_members
           (platform := reference_platform) 0 32 initial_state stepping_source).
  - vm_compute. discriminate.
  - vm_compute. lia.
  - vm_compute. lia.
Defined.

(** C3, as stated, fails.  With no class ticked the call returns like any
    other: it yields a state, and that state's password cell, empty before,
    now holds the 40 characters of a message, which the page shows in the
    password field and the copy button copies.  No error value comes back
    and the password output is not left alone. *)
Lemma generatePassword_no_class_counterexample :
  exists st',
    generatePassword (platform := reference_platform) 0
                     nothing_selected zero_source = Some (st', zero_source) /\
    password st' = units "Please select at least one character set" /\
    length (password st') = 40 /\
    password nothing_selected = [] /\
    password st' <> password nothing_selected /\
    getStrengthLabel st' = Some (units "Very Weak").
Proof.
  eexists. split; [vm_compute; reflexivity|].
  repeat split; try reflexivity. discriminate.
Qed.

(** C3, amended.  With the five class boxes unticked (whatever the
    "ambiguous" box) [generatePassword] takes the branch of line 108: it
    returns at once, having put the message "Please select at least one
    character set" in the password cell and 0 in the entropy and strength
    cells; it draws no random byte and leaves every other cell, the history
    among them, as it was. *)
Theorem generatePassword_no_class
    {platform : Platform} (fuel : nat) (st : State) (rs : RandomSource) :
  lowercase (options st) = false ->
  uppercase (options st) = false ->
  numbers (options st) = false ->
  symbols (options st) = false ->
  extendedAscii (options st) = false ->
  exists st',
    generatePassword fuel st rs = Some (st', rs) /\
    password st' = select_charset_message /\
    entropy st' = 0%float /\
    strengthLevel st' = 0 /\
    passwordHistory st' = passwordHistory st /\
    passwordLength st' = passwordLength st /\
    options st' = options st /\
    copied st' = copied st /\
    animateStrength st' = animateStrength st /\
    showPasswordHistory st' = showPasswordHistory st.
Proof.
  intros Hl Hu Hn Hs He.
  rewrite (generatePassword_empty fuel st rs)
    by (now apply build_charset_no_class).
  eexists. split; [reflexivity|]. cbn. auto 10.
Qed.

Lemma generatePassword_no_class_witness :
  exists st',
    generatePassword (platform := reference_platform) 7
                     nothing_selected stepping_source
      = Some (st', stepping_source) /\
    password st' = select_charset_message /\
    entropy st' = 0%float /\
    strengthLevel st' = 0 /\
    passwordHistory st' = passwordHistory nothing_selected /\
    passwordLength st' = passwordLength nothing_selected /\
    options st' = options nothing_selected /\
    copied st' = copied nothing_selected /\
    animateStrength st' = animateStrength nothing_selected /\
    showPasswordHistory st' = showPasswordHistory nothing_selected.
Proof.
  apply (generatePassword_no_class
           (platform := reference_platform) 7 nothing_selected stepping_source);
    reflexivity.
Defined.

(** ** Sessions *)

Section SessionFacts.

Context {platform : Platform}.

(** A finished [while] loop leaves a full password. *)
Lemma while_loop_length (charset : jsstring) (L fuel : nat) :
  charset <> [] ->
  forall (np pw : jsstring) (rs rs' : RandomSource),
    length np <= L ->
    while_loop charset L fuel np rs = Some (pw, rs') ->
    length pw = L.
Proof.
  intros Hne. induction fuel as [|fuel IH]; intros np pw rs rs' Hle Hrun;
    cbn [while_loop] in Hrun;
    destruct (length np <? L) eqn:Hlt; try discriminate.
  - apply Nat.ltb_ge in Hlt. injection Hrun as <- _. lia.
  - apply Nat.ltb_lt in Hlt.
    change (getSecureRandomValues 1 rs)
      with (upcoming rs 1, advance 1 rs) in Hrun.
    cbv iota beta in Hrun. unfold upcoming in Hrun.
    cbn [seq map sample_extra] in Hrun.
    apply IH in Hrun; [assumption|].
    rewrite (sample_byte_length charset Hne).
    destruct (accepted charset (byte_at rs (drawn rs))); lia.
  - apply Nat.ltb_ge in Hlt. injection Hrun as <- _. lia.
Qed.

Lemma sample_password_length
    (charset : jsstring) (L fuel : nat) (pw : jsstring)
    (rs rs' : RandomSource) :
  charset <> [] ->
  sample_password charset L fuel rs = Some (pw, rs') ->
  length pw = L.
Proof.
  intros Hne Hrun. unfold sample_password in Hrun.
  change (getSecureRandomValues (L * 2) rs)
    with (upcoming rs (L * 2), advance (L * 2) rs) in Hrun.
  cbv iota beta in Hrun.
  eapply while_loop_length; [exact Hne | | exact Hrun].
  rewrite (for_loop_length charset L Hne) by (cbn; lia). lia.
Qed.

(** What any finished call of [generatePassword] does to the cells the
    session invariants speak about. *)
Lemma generatePassword_cells
    (fuel : nat) (st st' : State) (rs rs' : RandomSource) :
  generatePassword fuel st rs = Some (st', rs') ->
  passwordLength st' = passwordLength st /\
  ((build_charset (options st) = [] /\
    password st' = select_charset_message /\
    passwordHistory st' = passwordHistory st) \/
   (build_charset (options st) <> [] /\
    length (password st') = passwordLength st /\
    passwordHistory st' = password st' :: firstn 4 (passwordHistory st))).
Proof.
  intros Hgen.
  destruct (build_charset (options st)) as [|c cs] eqn:Hcs.
  - rewrite (generatePassword_empty fuel st rs Hcs) in Hgen.
    injection Hgen as <- _. cbn. auto.
  - assert (build_charset (options st) <> []) as Hne
      by (rewrite Hcs; discriminate).
    destruct (generatePassword_success fuel st st' rs rs' Hne Hgen)
      as [Hsample [Hlen [_ [_ [_ Hhist]]]]].
    split; [assumption|]. right. rewrite <- Hcs.
    repeat split; try assumption.
    eapply sample_password_length; eassumption.
Qed.





(** The history never grows beyond five entries, whatever the events. *)
Lemma generatePassword_history_size
    (fuel : nat) (st st' : State) (rs rs' : RandomSource) :
  length (passwordHistory st) <= 5 ->
  generatePassword fuel st rs = Some (st', rs') ->
  length (passwordHistory st') <= 5.
Proof.
  intros Hsize Hgen.
  destruct (generatePassword_cells fuel st st' rs rs' Hgen)
    as [_ [[_ [_ Hh]] | [_ [_ Hh]]]]; rewrite Hh; [assumption|].
  cbn [length]. rewrite length_firstn. lia.
Qed.

Lemma dispatch_history_size
    (fuel : nat) (ev : event) (st st' : State) (rs rs' : RandomSource) :
  length (passwordHistory st) <= 5 ->
  dispatch fuel ev st rs = Some (st', rs') ->
  length (passwordHistory st') <= 5.
Proof.
  intros Hsize Hstep.
  destruct ev as [|name checked|value| |index| | |]; cbn [dispatch] in Hstep;
    try (injection Hstep as <- _; assumption);
    try (eapply generatePassword_history_size; [|exact Hstep]; assumption).
  - destruct (value =? passwordLength st).
    + now injection Hstep as <- _.
    + eapply generatePassword_history_size; [|exact Hstep]. assumption.
  - destruct (nth_error (passwordHistory st) index);
      now injection Hstep as <- _.
Qed.

Lemma run_history_size (fuel : nat) (evs : list event) :
  forall (st st' : State) (rs rs' : RandomSource),
    length (passwordHistory st) <= 5 ->
    run fuel evs st rs = Some (st', rs') ->
    length (passwordHistory st') <= 5.
Proof.
  induction evs as [|ev evs IH]; intros st st' rs rs' Hsize Hrun;
    cbn [run] in Hrun.
  - now injection Hrun as <- _.
  - destruct (dispatch fuel ev st rs) as [[st1 rs1]|] eqn:Hstep;
      [|discriminate].
    eapply IH; [|exact Hrun].
    eapply dispatch_history_size; eassumption.
Qed.

Lemma session_history_size
    (fuel : nat) (evs : list event) (st : State) (rs rs' : RandomSource) :
  session fuel evs rs = Some (st, rs') ->
  length (passwordHistory st) <= 5.
Proof.
  unfold session, mount. intros Hrun.
  destruct (generatePassword fuel initial_state rs) as [[st0 rs0]|] eqn:Hgen;
    [|discriminate].
  eapply run_history_size; [|exact Hrun].
  apply (generatePassword_history_size fuel initial_state st0 rs rs0);
    [|exact Hgen].
  unfold initial_state, passwordHistory, length. lia.
Qed.

Lemma firstn_4_removelast (A : Type) (l : list A) :
  length l = 5 -> firstn 4 l = removelast l.
Proof.
  destruct l as [|a [|b [|c [|d [|e [|f l]]]]]]; cbn; intros H;
    try discriminate; reflexivity.
Qed.

End SessionFacts.

(** ** The password history *)

(** C7.  The history holds the newest password first and never more than
    five.  A generation with a non-empty character set puts the new
    password in front of the first four entries of the old history: nothing
    is dropped while fewer than five are held, and the oldest is dropped
    when five are.  A generation with an empty character set leaves the
    history as it was.  Hence after any sequence of events the history has
    at most five entries. *)
Theorem passwordHistory_bounded_newest_first {platform : Platform} :
  (forall fuel st st' rs rs',
      build_charset (options st) <> [] ->
      generatePassword fuel st rs = Some (st', rs') ->
      passwordHistory st' = password st' :: firstn 4 (passwordHistory st) /\
      (length (passwordHistory st) < 5 ->
       passwordHistory st' = password st' :: passwordHistory st) /\
      (length (passwordHistory st) = 5 ->
       passwordHistory st' = password st' :: removelast (passwordHistory st))) /\
  (forall fuel st st' rs rs',
      build_charset (options st) = [] ->
      generatePassword fuel st rs = Some (st', rs') ->
      passwordHistory st' = passwordHistory st) /\
  (forall fuel evs st rs rs',
      session fuel evs rs = Some (st, rs') ->
      length (passwordHistory st) <= 5).
Proof.
  split; [|split].
  - intros fuel st st' rs rs' Hne Hgen.
    destruct (generatePassword_success fuel st st' rs rs' Hne Hgen)
      as [_ [_ [_ [_ [_ Hhist]]]]].
    split; [assumption|]. split; intros Hsize; rewrite Hhist.
    + now rewrite firstn_all2 by lia.
    + now rewrite firstn_4_removelast.
  - intros fuel st st' rs rs' Hcs Hgen.
    rewrite (generatePassword_empty fuel st rs Hcs) in Hgen.
    now injection Hgen as <- _.
  - intros fuel evs st rs rs'. apply session_history_size.
Qed.

Lemma passwordHistory_bounded_newest_first_witness :
  match session (platform := reference_platform) 10 six_clicks stepping_source
  with
  | Some (st, _) => length (passwordHistory st) <= 5
  | None => False
  end.
Proof.
  destruct (session (platform := reference_platform) 10 six_clicks
                    stepping_source) as [[st rs']|] eqn:Hrun.
  - exact (proj2 (proj2 (passwordHistory_bounded_newest_first
                           (platform := reference_platform)))
                 10 six_clicks st stepping_source rs' Hrun).
  - exfalso. revert Hrun. vm_compute. discriminate.
Defined.

(** ** The requested length *)

Section SliderFacts.

Context {platform : Platform}.






End SliderFacts.



(** ** Order of binary64 values *)

Section FloatOrder.

Local Open Scope Z_scope.

Lemma lex3_spec (a b : Z * Z * Z) :
  match lex3 a b with
  | Lt => lt3 a b
  | Eq => a = b
  | Gt => lt3 b a
  end.
Proof.
  destruct a as [[a1 a2] a3], b as [[b1 b2] b3]. unfold lex3, lt3.
  destruct (Z.compare_spec a1 b1); [|lia|lia].
  destruct (Z.compare_spec a2 b2); [|lia|lia].
  destruct (Z.compare_spec a3 b3); [congruence|lia|lia].
Qed.

(** [SFcompare] is the lexicographic comparison of the ranks. *)
Lemma SFcompare_rank (f1 f2 : spec_float) :
  SFcompare f1 f2 =
  match rank f1, rank f2 with
  | Some a, Some b => Some (lex3 a b)
  | _, _ => None
  end.
Proof.
  destruct f1 as [[]|[]| |[] m1 e1], f2 as [[]|[]| |[] m2 e2];
    try reflexivity; cbn [SFcompare rank lex3]; f_equal.
  change (-1 ?= -1) with Eq. cbv iota.
  rewrite Z.compare_opp, (Z.compare_antisym e1 e2).
  destruct (e1 ?= e2); reflexivity.
Qed.

Lemma lt3_irrefl_trans (a b c : Z * Z * Z) :
  (lt3 a b \/ a = b) -> (lt3 b c \/ b = c) -> lt3 c a -> False.
Proof.
  destruct a as [[a1 a2] a3], b as [[b1 b2] b3], c as [[c1 c2] c3].
  unfold lt3. intros [H1|H1] [H2|H2] H3;
    try (injection H1 as -> -> ->); try (injection H2 as -> -> ->); lia.
Qed.

(** From [b <= a] and [a <= e]: [e] is not below [b]. *)
Lemma SFleb_trans_not_lt (b a e : spec_float) :
  SFleb b a = true -> SFleb a e = true -> SFltb e b = false.
Proof.
  unfold SFleb, SFltb. rewrite !SFcompare_rank.
  destruct (rank a) as [ra|], (rank b) as [rb|], (rank e) as [re|];
    try discriminate; try reflexivity.
  pose proof (lex3_spec rb ra) as Hba. pose proof (lex3_spec ra re) as Hae.
  pose proof (lex3_spec re rb) as Heb.
  destruct (lex3 rb ra), (lex3 ra re), (lex3 re rb);
    try discriminate; try reflexivity; intros _ _; exfalso;
    eapply (lt3_irrefl_trans rb ra re); eauto.
Qed.

End FloatOrder.

(** The same on primitive floats. *)
Lemma leb_trans_not_ltb (b a e : float) :
  (b <=? a)%float = true -> (a <=? e)%float = true -> (e <? b)%float = false.
Proof.
  rewrite !leb_spec, ltb_spec. apply SFleb_trans_not_lt.
Qed.

(** ** The rejection rate *)

Lemma rate_check_all :
  forallb rate_check (map N.of_nat (seq 2 255)) = true.
Proof. vm_compute. reflexivity. Qed.

Lemma rate_check_true (n : N) :
  rate_check n = true ->
  N.of_nat (length (rejected_for_size n)) = (256 mod n)%N /\
  (256 mod n < 128)%N.
Proof.
  unfold rate_check. intros Hcheck.
  apply andb_true_iff in Hcheck as [Hcount Hlt].
  apply N.eqb_eq in Hcount. apply N.ltb_lt in Hlt. now split.
Qed.

Lemma rate_check_size (n : nat) :
  2 <= n <= 256 -> rate_check (N.of_nat n) = true.
Proof.
  intros Hn. apply (proj1 (forallb_forall _ _) rate_check_all).
  apply in_map, in_seq. lia.
Qed.

Lemma rejected_values_size (charset : jsstring) :
  rejected_values charset = rejected_for_size (charset_length charset).
Proof.
  unfold rejected_values, rejected_for_size. apply filter_ext.
  intros b. reflexivity.
Qed.

(** C8.  For a character set of N characters, 2 <= N <= 256, the loops skip
    exactly 256 mod N of the 256 byte values; that is fewer than 128, so
    the share of skipped values, (256 mod N) / 256, is below one half. *)
Theorem rejection_rate_below_half (charset : jsstring) :
  2 <= length charset <= 256 ->
  N.of_nat (length (rejected_values charset)) = (256 mod charset_length charset)%N /\
  (256 mod charset_length charset < 128)%N /\
  (Z.of_nat (length (rejected_values charset)) # 256 < 1 # 2)%Q.
Proof.
  intros Hsize.
  destruct (rate_check_true _ (rate_check_size (length charset) Hsize))
    as [Hcount Hlt].
  rewrite rejected_values_size. unfold charset_length.
  repeat split; try assumption.
  unfold Qlt. cbn [Qnum Qden]. lia.
Qed.

(** The default set has 89 characters: 78 byte values are skipped. *)
Lemma rejection_rate_below_half_witness :
  N.of_nat (length (rejected_values (build_charset default_options))) = 78%N /\
  (78 < 128)%N /\
  (Z.of_nat (length (rejected_values (build_charset default_options))) # 256
   < 1 # 2)%Q.
Proof.
  apply (rejection_rate_below_half (build_charset default_options)).
  vm_compute. split; lia.
Defined.

(** ** The strength tiers *)

(** C6.  The level of an entropy value [e] follows half-open intervals that
    include their lower end: below 45 it is 0 ("Very Weak"), from 45 to
    below 60 it is 1 ("Weak"), from 60 to below 80 it is 2 ("Medium"), from
    80 to below 100 it is 3 ("Strong"), from 100 on it is 4 ("Very
    Strong").  For a set of 64 characters and length 16, wherever the
    platform's logarithms give log 64 / log 2 = 6, the entropy is
    16 * 6 = 96 and the level is 3. *)
Theorem getStrengthLevel_tiers {platform : Platform} (e : float) :
  ((e <? 45)%float = true -> getStrengthLevel e = 0) /\
  ((45 <=? e)%float = true -> (e <? 60)%float = true ->
   getStrengthLevel e = 1) /\
  ((60 <=? e)%float = true -> (e <? 80)%float = true ->
   getStrengthLevel e = 2) /\
  ((80 <=? e)%float = true -> (e <? 100)%float = true ->
   getStrengthLevel e = 3) /\
  ((100 <=? e)%float = true -> getStrengthLevel e = 4) /\
  map (nth_error labels) [0; 1; 2; 3; 4] =
    map Some [units "Very Weak"; units "Weak"; units "Medium"; units "Strong";
              units "Very Strong"] /\
  (forall charset : jsstring,
      length charset = 64 ->
      (Math_log 64 / Math_log 2)%float = 6%float ->
      calculateEntropy charset 16 = 96%float /\
      getStrengthLevel (calculateEntropy charset 16) = 3).
Proof.
  assert (forall b a : float,
             (b <=? a)%float = true -> (a <=? e)%float = true ->
             (e <? b)%float = false) as Hbelow
    by (intros b a; apply leb_trans_not_ltb).
  unfold getStrengthLevel.
  split; [|split; [|split; [|split; [|split; [|split]]]]].
  - now intros ->.
  - intros Hlo ->. now rewrite (Hbelow 45%float 45%float eq_refl Hlo).
  - intros Hlo ->.
    now rewrite (Hbelow 45%float 60%float eq_refl Hlo),
                (Hbelow 60%float 60%float eq_refl Hlo).
  - intros Hlo ->.
    now rewrite (Hbelow 45%float 80%float eq_refl Hlo),
                (Hbelow 60%float 80%float eq_refl Hlo),
                (Hbelow 80%float 80%float eq_refl Hlo).
  - intros Hlo.
    now rewrite (Hbelow 45%float 100%float eq_refl Hlo),
                (Hbelow 60%float 100%float eq_refl Hlo),
                (Hbelow 80%float 100%float eq_refl Hlo),
                (Hbelow 100%float 100%float eq_refl Hlo).
  - reflexivity.
  - intros charset Hlen Hlog. unfold calculateEntropy. rewrite Hlen.
    change (Num.of_nat 64) with 64%float.
    change (Num.of_nat 16) with 16%float.
    rewrite Hlog. split; reflexivity.
Qed.

(** An entropy of 50 bits is "Weak"; the 64 characters of
    [upper_digits_symbols] with length 16 give 96 bits, "Strong". *)
Lemma getStrengthLevel_tiers_witness :
  getStrengthLevel 50%float = 1 /\
  calculateEntropy (platform := reference_platform)
                   (build_charset upper_digits_symbols) 16 = 96%float /\
  getStrengthLevel
    (calculateEntropy (platform := reference_platform)
                      (build_charset upper_digits_symbols) 16) = 3.
Proof.
  pose proof (getStrengthLevel_tiers (platform := reference_platform) 50%float)
    as [_ [Hweak [_ [_ [_ [_ Hpool]]]]]].
  split.
  - apply Hweak; reflexivity.
  - apply Hpool; reflexivity.
Defined.

(** ** The crack-time estimate *)

(** On the reference platform every whole number of bits from 0 to 1100
    gets an estimate: the numbers printed stay far below 10^21. *)
Lemma getCrackTimeEstimation_defined :
  forallb
    (fun bits =>
       match getCrackTimeEstimation
               (platform := reference_platform)
               (setEntropy (Num.of_nat bits) initial_state)
       with
       | Some _ => true
       | None => false
       end)
    (seq 0 1101) = true.
Proof. vm_compute. reflexivity. Qed.

(** C10.  The estimate is a function of the entropy cell, and a generation
    stores there the exact entropy rounded to the nearest whole number of
    bits.  So after two generations, of whatever character sets and
    lengths, whose exact entropies round to the same number, the two
    estimates are the same string. *)
Theorem getCrackTimeEstimation_rounded_entropy
    {platform : Platform}
    (fuel1 fuel2 : nat) (st1 st2 st1' st2' : State)
    (rs1 rs2 rs1' rs2' : RandomSource) :
  build_charset (options st1) <> [] ->
  build_charset (options st2) <> [] ->
  generatePassword fuel1 st1 rs1 = Some (st1', rs1') ->
  generatePassword fuel2 st2 rs2 = Some (st2', rs2') ->
  Num.Math_round
    (calculateEntropy (build_charset (options st1)) (passwordLength st1)) =
  Num.Math_round
    (calculateEntropy (build_charset (options st2)) (passwordLength st2)) ->
  entropy st1' =
    Num.Math_round
      (calculateEntropy (build_charset (options st1)) (passwordLength st1)) /\
  entropy st2' = entropy st1' /\
  getCrackTimeEstimation st1' = getCrackTimeEstimation st2'.
Proof.
  intros Hne1 Hne2 Hgen1 Hgen2 Hround.
  destruct (generatePassword_success fuel1 st1 st1' rs1 rs1' Hne1 Hgen1)
    as [_ [_ [_ [Hent1 _]]]].
  destruct (generatePassword_success fuel2 st2 st2' rs2 rs2' Hne2 Hgen2)
    as [_ [_ [_ [Hent2 _]]]].
  assert (entropy st2' = entropy st1') as Hsame by congruence.
  repeat split; try assumption.
  unfold getCrackTimeEstimation. now rewrite Hsame.
Qed.

(** Exactly 40 bits and about 39.86 bits: both are stored as 40 and both
    estimates read "55 seconds". *)
Lemma getCrackTimeEstimation_rounded_entropy_witness :
  match generatePassword (platform := reference_platform) 10
                         symbols_8 stepping_source,
        generatePassword (platform := reference_platform) 10
                         digits_12 stepping_source
  with
  | Some (st1', _), Some (st2', _) =>
      getCrackTimeEstimation (platform := reference_platform) st1' =
      getCrackTimeEstimation (platform := reference_platform) st2' /\
      entropy st2' = 40%float /\
      (calculateEntropy (platform := reference_platform)
                        (build_charset (options digits_12))
                        (passwordLength digits_12) <? 40)%float = true
  | _, _ => False
  end.
Proof.
  destruct (generatePassword (platform := reference_platform) 10
                             symbols_8 stepping_source)
    as [[st1' rs1']|] eqn:Hgen1;
    [|exfalso; revert Hgen1; vm_compute; discriminate].
  destruct (generatePassword (platform := reference_platform) 10
                             digits_12 stepping_source)
    as [[st2' rs2']|] eqn:Hgen2;
    [|exfalso; revert Hgen2; vm_compute; discriminate].
  destruct (getCrackTimeEstimation_rounded_entropy
              (platform := reference_platform)
              10 10 symbols_8 digits_12 st1' st2'
              stepping_source stepping_source rs1' rs2')
    as [Hent1 [Hent2 Hsame]]; try assumption.
  - vm_compute. discriminate.
  - vm_compute. discriminate.
  - vm_compute. reflexivity.
  - split; [exact Hsame|]. split.
    + rewrite Hent2, Hent1. vm_compute. reflexivity.
    + vm_compute. reflexivity.
Defined.

(** ** Examples *)

Example crack_time_0_bits :
  getCrackTimeEstimation (platform := reference_platform) initial_state
  = Some (units "Instantly").
Proof. vm_compute. reflexivity. Qed.

Example crack_time_40_bits :
  getCrackTimeEstimation (platform := reference_platform)
                         (setEntropy 40%float initial_state)
  = Some (units "55 seconds").
Proof. vm_compute. reflexivity. Qed.

Example crack_time_96_bits :
  getCrackTimeEstimation (platform := reference_platform)
                         (setEntropy 96%float initial_state)
  = Some (units "Millions of years").
Proof. vm_compute. reflexivity. Qed.

Example round_half_up :
  map Num.Math_round [0.5; 2.5; -2.5; 103.5; -0.25]%float
  = [1; 3; -2; 104; -0]%float.
Proof. vm_compute. reflexivity. Qed.

Example default_charset_size : length (build_charset default_options) = 89.
Proof. reflexivity. Qed.

Example first_render :
  option_map (fun r => (password (fst r), entropy (fst r),
                        strengthLevel (fst r), drawn (snd r)))
             (mount (platform := reference_platform) 0 stepping_source)
  = Some ([97; 78; 125; 120; 35; 100; 82; 58; 65; 94; 103; 85; 60; 68; 40;
           106]%Z, 104%float, 4, 32).
Proof. vm_compute. reflexivity. Qed.

(** NaN is below no threshold: it falls through to the last level. *)
Example strength_of_nan : getStrengthLevel nan = 4.
Proof. reflexivity. Qed.

Example strength_label_of_96_bits :
  nth_error labels (getStrengthLevel 96%float) = Some (units "Strong").
Proof. reflexivity. Qed.

(** * Further properties of the code *)


(** X1.  The password is the run of characters picked by the first
    [passwordLength] accepted bytes of the source, in the order of the
    source, whatever came out of the first batch and whatever the top-up
    loop drew.  The generation leaves the oracle as it was, draws the batch
    of [2 * passwordLength] bytes in any case and nothing beyond the [n]
    bytes that hold the accepted ones. *)
Theorem generatePassword_first_accepted
    {platform : Platform} (fuel n : nat) (st : State) (rs : RandomSource) :
  build_charset (options st) <> [] ->
  passwordLength st
    <= accepted_count (build_charset (options st)) (upcoming rs n) ->
  n - passwordLength st * 2 <= fuel ->
  exists st' rs',
    generatePassword fuel st rs = Some (st', rs') /\
    password st' =
      picked (build_charset (options st))
             (firstn (passwordLength st)
                     (filter (accepted (build_charset (options st)))
                             (upcoming rs n))) /\
    byte_at rs' = byte_at rs /\
    drawn rs + passwordLength st * 2 <= drawn rs'
      <= drawn rs + Nat.max (passwordLength st * 2) n.
Proof.
  intros Hne Hacc Hfuel.
  destruct (sample_password_picked
              (build_charset (options st)) (passwordLength st)
              Hne n fuel rs Hacc Hfuel)
    as [rs' [Hsample [Hbytes Hdrawn]]].
  destruct (generatePassword_sampled fuel st rs rs' _ Hne Hsample)
    as [st' [Hgen [Hpw _]]].
  exists st', rs'. now repeat split.
Qed.

(** Three characters from the stepping source, whose bytes are 0, 37, 74,
    111, 148, 185, ...: the set abc has threshold 255, so the first three
    bytes are taken and 0 mod 3, 37 mod 3, 74 mod 3 pick a, b, c. *)
Lemma generatePassword_first_accepted_witness :
  exists st' rs',
    generatePassword (platform := reference_platform) 0
                     (setPasswordLength 3 initial_state) stepping_source
      = Some (st', rs') /\
    password st' =
      picked (build_charset default_options)
             (firstn 3 (filter (accepted (build_charset default_options))
                               (upcoming stepping_source 6))) /\
    byte_at rs' = byte_at stepping_source /\
    0 + 3 * 2 <= drawn rs' <= 0 + Nat.max (3 * 2) 6.
Proof.
  apply (generatePassword_first_accepted
           (platform := reference_platform)
           0 6 (setPasswordLength 3 initial_state) stepping_source).
  - vm_compute. discriminate.
  - vm_compute. lia.
  - vm_compute. lia.
Defined.

(** X2.  The retry loop is unbounded: when the character set is not empty,
    the length is positive and the source only ever hands out rejected
    bytes, [generatePassword] does not finish, however many top-up draws
    it is given. *)
Theorem generatePassword_starved
    {platform : Platform} (fuel : nat) (st : State) (rs : RandomSource) :
  build_charset (options st) <> [] ->
  0 < passwordLength st ->
  (forall k, accepted (build_charset (options st)) (byte_at rs k) = false) ->
  generatePassword fuel st rs = None.
Proof.
  intros Hne Hpos Hrej. unfold generatePassword.
  destruct (build_charset (options st)) as [|c cs] eqn:Hcs;
    [contradiction|].
  cbn [length Nat.eqb]. unfold sample_password.
  change (getSecureRandomValues (passwordLength st * 2) rs)
    with (upcoming rs (passwordLength st * 2),
          advance (passwordLength st * 2) rs).
  cbv iota beta.
  rewrite for_loop_starved
    by (unfold upcoming; apply Forall_map, Forall_forall; intros k _;
        apply Hrej).
  now rewrite while_loop_starved.
Qed.

(** The default set has threshold 178: the byte 255 is never accepted. *)
Lemma generatePassword_starved_witness :
  generatePassword (platform := reference_platform) 1000
                   initial_state stuck_source = None.
Proof.
  apply (generatePassword_starved
           (platform := reference_platform) 1000 initial_state stuck_source).
  - vm_compute. discriminate.
  - vm_compute. lia.
  - intros k. vm_compute. reflexivity.
Defined.

(** X3.  A length of 0 is not refused: with a non-empty character set the
    generation succeeds without any fuel and without using a byte, shows
    the empty password and records it in the history like any other. *)
Theorem generatePassword_zero_length
    {platform : Platform} (fuel : nat) (st : State) (rs : RandomSource) :
  build_charset (options st) <> [] ->
  passwordLength st = 0 ->
  exists st',
    generatePassword fuel st rs = Some (st', rs) /\
    password st' = [] /\
    passwordHistory st' = [] :: firstn 4 (passwordHistory st).
Proof.
  intros Hne Hzero. unfold generatePassword.
  destruct (build_charset (options st)) as [|c cs] eqn:Hcs;
    [contradiction|].
  cbn [length Nat.eqb]. rewrite Hzero. unfold sample_password.
  change (getSecureRandomValues (0 * 2) rs) with ([] : list N, advance 0 rs).
  cbv iota beta. cbn [for_loop].
  assert (advance 0 rs = rs) as ->
    by (destruct rs; unfold advance; cbn; now rewrite Nat.add_0_r).
  destruct fuel; cbn [while_loop length Nat.ltb Nat.leb];
    (eexists; split; [reflexivity|]; cbn; now split).
Qed.

Lemma generatePassword_zero_length_witness :
  exists st',
    generatePassword (platform := reference_platform) 0
                     (setPasswordLength 0 initial_state) stuck_source
      = Some (st', stuck_source) /\
    password st' = [] /\
    passwordHistory st' = [] :: firstn 4 [].
Proof.
  apply (generatePassword_zero_length
           (platform := reference_platform) 0
           (setPasswordLength 0 initial_state) stuck_source).
  - vm_compute. discriminate.
  - reflexivity.
Defined.

(** ** No modulo bias *)

Lemma filter_index_count (p : N -> bool) (f : N -> N) (i : N) (l : list N) :
  length (filter (fun b => p b && (f b =? i)%N) l) =
  length (filter (fun r => (r =? i)%N) (map f (filter p l))).
Proof.
  induction l as [|b l IH]; [reflexivity|].
  cbn [filter]. destruct (p b); cbn [andb map filter].
  - destruct (f b =? i)%N; cbn [length]; now rewrite IH.
  - exact IH.
Qed.

Lemma bytes_for_index_count (n i : N) :
  length (bytes_for_index n i) =
  length (filter (fun r => (r =? i)%N) (accepted_indices n)).
Proof.
  unfold bytes_for_index, accepted_indices.
  exact (filter_index_count (fun b => (b <? 256 - 256 mod n)%N)
                            (fun b => (b mod n)%N) i all_bytes).
Qed.

Lemma uniform_check_all :
  forallb uniform_check (map N.of_nat (seq 1 256)) = true.
Proof. vm_compute. reflexivity. Qed.

Lemma uniform_check_true (n i : N) :
  uniform_check n = true ->
  (i < n)%N ->
  N.of_nat (length (bytes_for_index n i)) = (256 / n)%N.
Proof.
  unfold uniform_check. cbv zeta. intros Hcheck Hi.
  rewrite forallb_forall in Hcheck.
  assert (In i (map N.of_nat (seq 0 (N.to_nat n)))) as Hin.
  { rewrite <- (N2Nat.id i). apply in_map, in_seq. lia. }
  specialize (Hcheck i Hin). apply N.eqb_eq in Hcheck.
  rewrite bytes_for_index_count. exact Hcheck.
Qed.

(** X4.  Rejection sampling removes the modulo bias: for a set of N
    characters, 1 <= N <= 256, every index below N is reached from the same
    number of byte values, 256 / N rounded down.  (The bytes in question
    are those the loops accept and send to that index.) *)
Theorem accepted_bytes_uniform (charset : jsstring) (i : N) :
  1 <= length charset <= 256 ->
  (i < charset_length charset)%N ->
  N.of_nat
    (length
       (filter (fun b => accepted charset b &&
                         (b mod charset_length charset =? i)%N)
               all_bytes))
  = (256 / charset_length charset)%N.
Proof.
  intros Hsize Hi.
  assert (filter (fun b => accepted charset b &&
                           (b mod charset_length charset =? i)%N) all_bytes
          = bytes_for_index (charset_length charset) i) as ->
    by (unfold bytes_for_index; apply filter_ext; intros b; reflexivity).
  apply uniform_check_true; [|exact Hi].
  apply (proj1 (forallb_forall _ _) uniform_check_all).
  unfold charset_length. apply in_map, in_seq. lia.
Qed.

(** The default set of 89 characters: two byte values for each index (one
    below 89, one from 89 to 177), for the first and for the last. *)
Lemma accepted_bytes_uniform_witness :
  N.of_nat
    (length
       (filter (fun b => accepted (build_charset default_options) b &&
                         (b mod charset_length (build_charset default_options)
                          =? 0)%N)
               all_bytes)) = 2%N /\
  N.of_nat
    (length
       (filter (fun b => accepted (build_charset default_options) b &&
                         (b mod charset_length (build_charset default_options)
                          =? 88)%N)
               all_bytes)) = 2%N.
Proof.
  split.
  - apply (accepted_bytes_uniform (build_charset default_options) 0%N).
    + vm_compute. split; lia.
    + vm_compute. reflexivity.
  - apply (accepted_bytes_uniform (build_charset default_options) 88%N).
    + vm_compute. split; lia.
    + vm_compute. reflexivity.
Defined.

(** ** The strength display *)

Section FloatOrderMore.

Local Open Scope Z_scope.

Lemma lt3_le_lt_cases (a b t : Z * Z * Z) :
  (lt3 a b \/ a = b) -> lt3 b t -> lt3 a t /\ a <> t /\ ~ lt3 t a.
Proof.
  destruct a as [[a1 a2] a3], b as [[b1 b2] b3], t as [[t1 t2] t3].
  unfold lt3. intros [H1|H1] H2; try (injection H1 as -> -> ->);
    (split; [lia | split; [intros Heq; injection Heq as -> -> ->; lia | lia]]).
Qed.

(** From [a <= b] and [b < t]: [a < t]. *)
Lemma SFleb_ltb_trans (a b t : spec_float) :
  SFleb a b = true -> SFltb b t = true -> SFltb a t = true.
Proof.
  unfold SFleb, SFltb. rewrite !SFcompare_rank.
  destruct (rank a) as [ra|], (rank b) as [rb|], (rank t) as [rt|];
    try discriminate.
  pose proof (lex3_spec ra rb) as Hab. pose proof (lex3_spec rb rt) as Hbt.
  pose proof (lex3_spec ra rt) as Hat.
  destruct (lex3 ra rb) eqn:Eab; try discriminate;
    destruct (lex3 rb rt) eqn:Ebt; try discriminate; intros _ _;
    (destruct (lt3_le_lt_cases ra rb rt) as [Hlt [Hne Hnot]];
     [auto | exact Hbt |]);
    destruct (lex3 ra rt); try reflexivity; contradiction.
Qed.

End FloatOrderMore.

Lemma leb_ltb_trans (a b t : float) :
  (a <=? b)%float = true -> (b <? t)%float = true -> (a <? t)%float = true.
Proof.
  rewrite leb_spec, !ltb_spec. apply SFleb_ltb_trans.
Qed.

Lemma getStrengthLevel_le_4 (e : float) : getStrengthLevel e <= 4.
Proof.
  unfold getStrengthLevel.
  destruct (e <? 45)%float, (e <? 60)%float, (e <? 80)%float,
    (e <? 100)%float; lia.
Qed.

(** X5.  More entropy never lowers the strength level: for two entropy
    values with [e1 <= e2] (neither is NaN, then) the level of [e1] is at
    most the level of [e2]. *)
Theorem getStrengthLevel_monotone (e1 e2 : float) :
  (e1 <=? e2)%float = true ->
  getStrengthLevel e1 <= getStrengthLevel e2.
Proof.
  intros Hle.
  assert (forall t : float,
             (e2 <? t)%float = true -> (e1 <? t)%float = true) as Hdown
    by (intros t; now apply leb_ltb_trans).
  unfold getStrengthLevel.
  destruct (e2 <? 45)%float eqn:H45;
    [rewrite (Hdown _ H45); lia|].
  destruct (e2 <? 60)%float eqn:H60;
    [rewrite (Hdown _ H60); destruct (e1 <? 45)%float; lia|].
  destruct (e2 <? 80)%float eqn:H80;
    [rewrite (Hdown _ H80);
     destruct (e1 <? 45)%float, (e1 <? 60)%float; lia|].
  destruct (e2 <? 100)%float eqn:H100;
    [rewrite (Hdown _ H100);
     destruct (e1 <? 45)%float, (e1 <? 60)%float, (e1 <? 80)%float; lia|].
  destruct (e1 <? 45)%float, (e1 <? 60)%float, (e1 <? 80)%float,
    (e1 <? 100)%float; lia.
Qed.

Lemma getStrengthLevel_monotone_witness :
  getStrengthLevel 59.5%float <= getStrengthLevel 60%float /\
  getStrengthLevel neg_infinity <= getStrengthLevel 0%float.
Proof.
  split.
  - apply (getStrengthLevel_monotone 59.5%float 60%float). reflexivity.
  - apply (getStrengthLevel_monotone neg_infinity 0%float). reflexivity.
Defined.

Section DisplayFacts.

Context {platform : Platform}.

(** Any finished generation leaves a level from 0 to 4 in the strength
    cell and a known password in the password cell. *)
Lemma generatePassword_display
    (fuel : nat) (st st' : State) (rs rs' : RandomSource) :
  generatePassword fuel st rs = Some (st', rs') ->
  strengthLevel st' <= 4 /\ password_known st'.
Proof.
  intros Hgen.
  destruct (build_charset (options st)) as [|c cs] eqn:Hcs.
  - rewrite (generatePassword_empty fuel st rs Hcs) in Hgen.
    injection Hgen as <- _. cbn. split; [lia | now left].
  - assert (build_charset (options st) <> []) as Hne
      by (rewrite Hcs; discriminate).
    destruct (generatePassword_success fuel st st' rs rs' Hne Hgen)
      as [_ [_ [_ [_ [Hlevel Hhist]]]]].
    split.
    + rewrite Hlevel. apply getStrengthLevel_le_4.
    + right. rewrite Hhist. now left.
Qed.

Lemma dispatch_display
    (fuel : nat) (ev : event) (st st' : State) (rs rs' : RandomSource) :
  strengthLevel st <= 4 /\ password_known st ->
  dispatch fuel ev st rs = Some (st', rs') ->
  strengthLevel st' <= 4 /\ password_known st'.
Proof.
  intros [Hlevel Hknown] Hstep.
  destruct ev as [|name checked|value| |index| | |]; cbn [dispatch] in Hstep;
    try (eapply generatePassword_display; exact Hstep);
    try (injection Hstep as <- _; split; assumption).
  - destruct (value =? passwordLength st).
    + injection Hstep as <- _. now split.
    + eapply generatePassword_display; exact Hstep.
  - destruct (nth_error (passwordHistory st) index) as [item|] eqn:Hitem;
      injection Hstep as <- _; split; try assumption.
    right. cbn. eapply nth_error_In; eassumption.
Qed.

Lemma run_display (fuel : nat) (evs : list event) :
  forall (st st' : State) (rs rs' : RandomSource),
    strengthLevel st <= 4 /\ password_known st ->
    run fuel evs st rs = Some (st', rs') ->
    strengthLevel st' <= 4 /\ password_known st'.
Proof.
  induction evs as [|ev evs IH]; intros st st' rs rs' Hinv Hrun;
    cbn [run] in Hrun.
  - now injection Hrun as <- _.
  - destruct (dispatch fuel ev st rs) as [[st1 rs1]|] eqn:Hstep;
      [|discriminate].
    eapply IH; [|exact Hrun]. eapply dispatch_display; eassumption.
Qed.

Lemma session_display
    (fuel : nat) (evs : list event) (st : State) (rs rs' : RandomSource) :
  session fuel evs rs = Some (st, rs') ->
  strengthLevel st <= 4 /\ password_known st.
Proof.
  unfold session, mount. intros Hrun.
  destruct (generatePassword fuel initial_state rs) as [[st0 rs0]|] eqn:Hgen;
    [|discriminate].
  eapply run_display; [|exact Hrun].
  eapply generatePassword_display; exact Hgen.
Qed.

Lemma strength_shown_of_level (st : State) :
  strengthLevel st <= 4 -> strength_shown st.
Proof.
  intros Hlevel. unfold strength_shown, getStrengthLabel, getStrengthClass.
  destruct (strengthLevel st) as [|[|[|[|[|k]]]]]; [| | | | |lia];
    eexists; eexists; cbn [nth_error];
    (split; [reflexivity|]; split; [cbn; tauto|];
     split; [reflexivity | cbn; tauto]).
Qed.

End DisplayFacts.

(** X6.  The strength display never shows [undefined]: in every state of a
    session the strength cell holds a level from 0 to 4, so
    [getStrengthLabel] and [getStrengthClass] both find an entry of their
    arrays. *)
Theorem session_strength_shown
    {platform : Platform}
    (fuel : nat) (evs : list event) (st : State) (rs rs' : RandomSource) :
  session fuel evs rs = Some (st, rs') ->
  strengthLevel st <= 4 /\ strength_shown st.
Proof.
  intros Hrun.
  destruct (session_display fuel evs st rs rs' Hrun) as [Hlevel _].
  split; [exact Hlevel | now apply strength_shown_of_level].
Qed.

Lemma session_strength_shown_witness :
  match session (platform := reference_platform) 10 untick_all stepping_source
  with
  | Some (st, _) => strengthLevel st <= 4 /\ strength_shown st
  | None => False
  end.
Proof.
  destruct (session (platform := reference_platform) 10 untick_all
                    stepping_source) as [[st rs']|] eqn:Hrun.
  - exact (session_strength_shown
             (platform := reference_platform)
             10 untick_all st stepping_source rs' Hrun).
  - exfalso. revert Hrun. vm_compute. discriminate.
Defined.

(** X7.  The first render shows an empty password field and an empty
    history.  From the generation that follows it on, in every state of a
    session, the password field shows nothing but the "select a character
    set" message or a password that is in the history: a generation shows
    what it has just recorded, and a click on a history entry shows that
    entry. *)
Theorem session_password_known
    {platform : Platform}
    (fuel : nat) (evs : list event) (st : State) (rs rs' : RandomSource) :
  session fuel evs rs = Some (st, rs') ->
  (password initial_state = [] /\ passwordHistory initial_state = []) /\
  (password st = select_charset_message \/
   In (password st) (passwordHistory st)).
Proof.
  intros Hrun. split; [split; reflexivity|].
  destruct (session_display fuel evs st rs rs' Hrun) as [_ Hknown].
  exact Hknown.
Qed.

Lemma session_password_known_witness :
  match session (platform := reference_platform) 10
                [ClickGenerate; UseHistoryItem 1; Copied] stepping_source
  with
  | Some (st, _) =>
      password st = select_charset_message \/
      In (password st) (passwordHistory st)
  | None => False
  end.
Proof.
  destruct (session (platform := reference_platform) 10
                    [ClickGenerate; UseHistoryItem 1; Copied]
                    stepping_source) as [[st rs']|] eqn:Hrun.
  - exact (proj2 (session_password_known
                    (platform := reference_platform)
                    10 [ClickGenerate; UseHistoryItem 1; Copied]
                    st stepping_source rs' Hrun)).
  - exfalso. revert Hrun. vm_compute. discriminate.
Defined.

(** ** What the strength depends on *)

(** X8.  The strength report does not depend on the random bytes: two
    finished generations from states with the same options and the same
    length, on whatever sources and with whatever passwords, leave the same
    entropy, the same level and label, and the same crack-time estimate. *)
Theorem strength_independent_of_bytes
    {platform : Platform}
    (fuel1 fuel2 : nat) (st1 st2 st1' st2' : State)
    (rs1 rs2 rs1' rs2' : RandomSource) :
  options st1 = options st2 ->
  passwordLength st1 = passwordLength st2 ->
  generatePassword fuel1 st1 rs1 = Some (st1', rs1') ->
  generatePassword fuel2 st2 rs2 = Some (st2', rs2') ->
  entropy st1' = entropy st2' /\
  strengthLevel st1' = strengthLevel st2' /\
  getStrengthLabel st1' = getStrengthLabel st2' /\
  getCrackTimeEstimation st1' = getCrackTimeEstimation st2'.
Proof.
  intros Hopt Hlen Hgen1 Hgen2.
  assert (entropy st1' = entropy st2' /\
          strengthLevel st1' = strengthLevel st2') as [Hent Hlevel].
  { destruct (build_charset (options st1)) as [|c cs] eqn:Hcs.
    - rewrite (generatePassword_empty fuel1 st1 rs1 Hcs) in Hgen1.
      rewrite Hopt in Hcs.
      rewrite (generatePassword_empty fuel2 st2 rs2 Hcs) in Hgen2.
      injection Hgen1 as <- _. injection Hgen2 as <- _. now split.
    - assert (build_charset (options st1) <> []) as Hne1
        by (rewrite Hcs; discriminate).
      assert (build_charset (options st2) <> []) as Hne2
        by (rewrite <- Hopt; exact Hne1).
      destruct (generatePassword_success fuel1 st1 st1' rs1 rs1' Hne1 Hgen1)
        as [_ [_ [_ [He1 [Hl1 _]]]]].
      destruct (generatePassword_success fuel2 st2 st2' rs2 rs2' Hne2 Hgen2)
        as [_ [_ [_ [He2 [Hl2 _]]]]].
      rewrite He1, He2, Hl1, Hl2, Hopt, Hlen. now split. }
  repeat split; try assumption.
  - unfold getStrengthLabel. now rewrite Hlevel.
  - unfold getCrackTimeEstimation. now rewrite Hent.
Qed.

(** The first render on two different sources: two different passwords,
    one strength report. *)
Lemma strength_independent_of_bytes_witness :
  match generatePassword (platform := reference_platform) 0
                         initial_state stepping_source,
        generatePassword (platform := reference_platform) 0
                         initial_state zero_source
  with
  | Some (st1', _), Some (st2', _) =>
      entropy st1' = entropy st2' /\
      strengthLevel st1' = strengthLevel st2' /\
      getStrengthLabel st1' = getStrengthLabel st2' /\
      getCrackTimeEstimation (platform := reference_platform) st1' =
      getCrackTimeEstimation (platform := reference_platform) st2'
  | _, _ => False
  end.
Proof.
  destruct (generatePassword (platform := reference_platform) 0
                             initial_state stepping_source)
    as [[st1' rs1']|] eqn:Hgen1;
    [|exfalso; revert Hgen1; vm_compute; discriminate].
  destruct (generatePassword (platform := reference_platform) 0
                             initial_state zero_source)
    as [[st2' rs2']|] eqn:Hgen2;
    [|exfalso; revert Hgen2; vm_compute; discriminate].
  apply (strength_independent_of_bytes
           (platform := reference_platform)
           0 0 initial_state initial_state st1' st2'
           stepping_source zero_source rs1' rs2');
    try reflexivity; assumption.
Defined.

(** ** The sizes of the character sets *)

(** X10.  The character set is empty exactly when none of the five classes
    is ticked: removing the ambiguous characters never empties a
    selection.  So the "select a character set" branch is taken for these
    options and for no others. *)
Theorem build_charset_empty_iff (o : Options) :
  build_charset o = [] <->
  lowercase o = false /\ uppercase o = false /\ numbers o = false /\
  symbols o = false /\ extendedAscii o = false.
Proof.
  split.
  - destruct o as [[] [] [] [] [] []]; vm_compute; intros H;
      try discriminate H; auto 10.
  - intros [Hl [Hu [Hn [Hs He]]]]. now apply build_charset_no_class.
Qed.

(** X11.  Every character set the options can build, unless it is empty,
    has between 8 and 166 characters, and its threshold lies above 128: the
    set is never too large for a byte, and every draw is accepted with
    probability above one half. *)
Theorem build_charset_size (o : Options) :
  build_charset o <> [] ->
  8 <= length (build_charset o) <= 166 /\
  (128 < maxValidValue (build_charset o) <= 256)%N.
Proof.
  destruct o as [[] [] [] [] [] []]; intros Hne;
    try (exfalso; apply Hne; reflexivity);
    vm_compute; repeat split; try lia; try discriminate.
Qed.

(** Digits without the ambiguous 0 and 1: the smallest set, 8 characters,
    which divides 256. *)
Lemma build_charset_size_witness :
  8 <= length (build_charset (mkOptions false false true false false false))
    <= 166 /\
  (128 < maxValidValue
           (build_charset (mkOptions false false true false false false))
       <= 256)%N.
Proof.
  apply (build_charset_size (mkOptions false false true false false false)).
  vm_compute. discriminate.
Defined.

(** ** Where the estimate saturates *)

Lemma reference_estimate_low :
  forallb (fun bits =>
             match reference_estimate bits with
             | Some s => starts_with (units "Instantly") s
                         && (length s =? 9)
             | None => false
             end)
          (seq 0 35) = true.
Proof. vm_compute. reflexivity. Qed.

Lemma reference_estimate_high :
  forallb (fun bits =>
             match reference_estimate bits with
             | Some s => starts_with (units "Millions of years") s
                         && (length s =? 17)
             | None => false
             end)
          (seq 66 1035) = true.
Proof. vm_compute. reflexivity. Qed.

Lemma starts_with_same_length (a s : jsstring) :
  starts_with a s = true -> length s = length a -> s = a.
Proof.
  revert s. induction a as [|x a IH]; intros [|y s]; cbn;
    try discriminate; try reflexivity.
  intros H Hlen. apply andb_true_iff in H as [Hxy Hrest].
  apply Z.eqb_eq in Hxy. subst. f_equal. apply IH; [assumption | lia].
Qed.

(** X12.  With exact powers of two, [getCrackTimeEstimation] answers
    "Instantly" for every whole entropy up to 34 bits (2^34 / 10^10 / 2 is
    still below one second) and "Millions of years" for every whole entropy
    from 66 bits on (2^66 / 10^10 / 2 exceeds a hundred years), also where
    2^bits overflows to infinity (checked up to 1100 bits). *)
Theorem getCrackTimeEstimation_saturation (bits : nat) :
  (bits <= 34 -> reference_estimate bits = Some (units "Instantly")) /\
  (66 <= bits <= 1100 ->
   reference_estimate bits = Some (units "Millions of years")).
Proof.
  split; intros Hbits.
  - pose proof (proj1 (forallb_forall _ _) reference_estimate_low bits) as H.
    cbv beta in H. destruct (reference_estimate bits) as [s|].
    + f_equal. specialize (H ltac:(apply in_seq; lia)).
      apply andb_true_iff in H as [Hpre Hlen].
      apply Nat.eqb_eq in Hlen. now apply starts_with_same_length.
    + specialize (H ltac:(apply in_seq; lia)). discriminate.
  - pose proof (proj1 (forallb_forall _ _) reference_estimate_high bits) as H.
    cbv beta in H. destruct (reference_estimate bits) as [s|].
    + f_equal. specialize (H ltac:(apply in_seq; lia)).
      apply andb_true_iff in H as [Hpre Hlen].
      apply Nat.eqb_eq in Hlen. now apply starts_with_same_length.
    + specialize (H ltac:(apply in_seq; lia)). discriminate.
Qed.

Lemma getCrackTimeEstimation_saturation_witness :
  reference_estimate 34 = Some (units "Instantly") /\
  reference_estimate 66 = Some (units "Millions of years").
Proof.
  split.
  - apply (proj1 (getCrackTimeEstimation_saturation 34)). lia.
  - apply (proj2 (getCrackTimeEstimation_saturation 66)). lia.
Defined.
